(** * SVG_Optimize: the attribute transformer and the preview compositor

    A shallow embedding of [src/App.tsx]: [optimizeSvgBase], and the derived
    values of the [App] component ([parsedSizes], [previewRenderSvg],
    [outputSvg], [svgPreviewUrl]).

    The functions of the JavaScript platform that the source calls
    ([String.prototype.trim], [split], [parseInt], [replace], [btoa], ...)
    are written out after ECMA-262 and the HTML standard; the markup parser
    and serializer of the browser ([DOMParser], [XMLSerializer]) are an
    interface, [Host], that the transformer is parametrised by. *)

From Stdlib Require Import List NArith ZArith Lia ZifyBool Bool Btauto String Ascii.
Import ListNotations.

(** ** JavaScript strings: sequences of 16-bit code units *)

Definition char16 := N.
Definition jsstring := list char16.

Definition wf_char (c : char16) : Prop := (c < 65536)%N.
Definition wf_string (s : jsstring) : Prop := Forall wf_char s.

(** A string literal of the source (ASCII only). *)
Definition lit (s : string) : jsstring := map N_of_ascii (list_ascii_of_string s).

(** A literal in which the apostrophe stands for the double quote U+0022. *)
Definition qlit (s : string) : jsstring :=
  map (fun c => if (c =? 39)%N then 34%N else c) (lit s).

Fixpoint jseqb (a b : jsstring) : bool :=
  match a, b with
  | [], [] => true
  | x :: a', y :: b' => (x =? y)%N && jseqb a' b'
  | _, _ => false
  end.

Module Str.
Local Open Scope N_scope.

(** WhiteSpace and LineTerminator code units (ECMA-262, 12.2 and 12.3). *)
Definition isWhiteSpace (c : char16) : bool :=
  ((9 <=? c) && (c <=? 13)) || (c =? 32) || (c =? 160) || (c =? 5760)
  || ((8192 <=? c) && (c <=? 8202)) || (c =? 8232) || (c =? 8233)
  || (c =? 8239) || (c =? 8287) || (c =? 12288) || (c =? 65279).

Fixpoint trimStart (s : jsstring) : jsstring :=
  match s with
  | c :: r => if isWhiteSpace c then trimStart r else s
  | [] => []
  end.

Definition trimEnd (s : jsstring) : jsstring := rev (trimStart (rev s)).

(** [String.prototype.trim] *)
Definition trim (s : jsstring) : jsstring := trimEnd (trimStart s).

(** [String.prototype.split] with a separator of one code unit. *)
Fixpoint split (sep : char16) (s : jsstring) : list jsstring :=
  match s with
  | [] => [[]]
  | c :: r =>
      if c =? sep then [] :: split sep r
      else match split sep r with
           | t :: ts => (c :: t) :: ts
           | [] => [[c]]
           end
  end.

(** [Array.prototype.join], the inverse the statements about [split] use. *)
Fixpoint join (sep : char16) (ts : list jsstring) : jsstring :=
  match ts with
  | [] => []
  | [t] => t
  | t :: ts' => t ++ sep :: join sep ts'
  end.

(** [String.prototype.toLowerCase]. For the letters A-Z the mapping is the
    ASCII one. No other code unit has a lower-case form among the ASCII
    letters s, v, g, the only ones the source compares the result with,
    so code units outside A-Z are left as they are. *)
Definition lowerUnit (c : char16) : char16 :=
  if (65 <=? c) && (c <=? 90) then c + 32 else c.

Definition toLowerCase (s : jsstring) : jsstring := map lowerUnit s.

(** The truthiness of a string: [!s] holds of the empty string only. *)
Definition truthy (s : jsstring) : bool :=
  match s with [] => false | _ => true end.
End Str.

(** ** Numbers and [parseInt] *)

(** The Number values the component meets: every one comes from
    [parseInt], from a literal or from [Math.max] and [+] on such values, so
    each is NaN, an infinity, the negative zero or a double whose value is
    an integer. [Num z] is the finite Number of value [z], the positive zero
    for [z = 0]; the values the functions below build are doubles, that is
    integers with at most 53 significant bits and below 2^1024. *)
Inductive Number :=
| NaN
| Num (z : Z)
| NegZero
| Infinity
| NegInfinity.

Module Num.
Local Open Scope N_scope.

Definition isNaN (n : Number) : bool :=
  match n with NaN => true | _ => false end.

(** [n > 0] *)
Definition gt0 (n : Number) : bool :=
  match n with
  | Num z => (0 <? z)%Z
  | Infinity => true
  | NaN | NegZero | NegInfinity => false
  end.

(** The double nearest to a natural number [a], as an integer: [a] is cut
    to 53 significant bits and rounded to the nearest such value, to the
    one with an even last bit when two are as near. The result is 2^1024
    or more where the Number is an infinity. *)
Definition nearest (a : Z) : Z :=
  let e := (Z.log2 a - 52)%Z in
  if (e <=? 0)%Z then a
  else
    let q := (a / 2 ^ e)%Z in
    let r := (a mod 2 ^ e)%Z in
    let half := (2 ^ (e - 1))%Z in
    ((if (half <? r)%Z || ((r =? half)%Z && Z.odd q) then q + 1 else q) * 2 ^ e)%Z.

(** The Number value of a mathematical integer (ECMA-262, 6.1.6.1): the
    nearest double, an infinity from 2^1024 - 2^970 on. The zero is the
    positive one. *)
Definition fromInteger (z : Z) : Number :=
  let v := nearest (Z.abs z) in
  if (2 ^ 1024 <=? v)%Z then (if (z <? 0)%Z then NegInfinity else Infinity)
  else Num (Z.sgn z * v).

(** The value of a code unit as a digit, when it is an alphanumeric one. *)
Definition digitValue (c : char16) : option N :=
  if (48 <=? c) && (c <=? 57) then Some (c - 48)
  else if (97 <=? c) && (c <=? 122) then Some (c - 87)
  else if (65 <=? c) && (c <=? 90) then Some (c - 55)
  else None.

Definition radixDigit (R : N) (c : char16) : option N :=
  match digitValue c with
  | Some d => if d <? R then Some d else None
  | None => None
  end.

(** The longest prefix of radix-R digits, as digit values. *)
Fixpoint digitsPrefix (R : N) (s : jsstring) : list N :=
  match s with
  | c :: r => match radixDigit R c with
              | Some d => d :: digitsPrefix R r
              | None => []
              end
  | [] => []
  end.

Definition mathInt (R : N) (ds : list N) : N :=
  fold_left (fun acc d => acc * R + d) ds 0.

(** The rest of a string after a leading 0x or 0X. *)
Definition hexPrefix (s : jsstring) : option jsstring :=
  match s with
  | 48 :: x :: r => if (x =? 120) || (x =? 88) then Some r else None
  | _ => None
  end.

(** [parseInt(string, radix)] (ECMA-262, 19.2.5), for a radix that is a
    natural number. The digits are read as the exact integer, which is
    then rounded to a Number. (The language lets an implementation read
    the decimal digits after the twentieth as zeros; the engines read them
    all, as here.) *)
Definition parseInt (string : jsstring) (radix : N) : Number :=
  let trimmed := Str.trimStart string in
  let sign := match trimmed with 45 :: _ => (-1)%Z | _ => 1%Z end in
  let unsigned := match trimmed with
                  | c :: r => if (c =? 43) || (c =? 45) then r else trimmed
                  | [] => trimmed
                  end in
  if negb (radix =? 0) && ((radix <? 2) || (36 <? radix)) then NaN
  else
    let stripPrefix := (radix =? 0) || (radix =? 16) in
    let R := if radix =? 0 then 10 else radix in
    let '(body, R) := match (if stripPrefix then hexPrefix unsigned else None) with
                      | Some r => (r, 16)
                      | None => (unsigned, R)
                      end in
    match digitsPrefix R body with
    | [] => NaN
    | ds => if mathInt R ds =? 0
            then (if (sign =? -1)%Z then NegZero else Num 0)
            else fromInteger (sign * Z.of_N (mathInt R ds))
    end.
End Num.

(** ** Regular expressions and [String.prototype.replace] *)

Module RegExp.
Local Open Scope N_scope.

(** The three regular expressions of the source have one shape: a literal,
    then a run of code units other than a closing one, then the closing
    one. Lazy ([*?]) or greedy ([*]), the run can only end at the first
    closing code unit after the literal, so one matcher serves both.
    [groups] is the number of capturing groups (1 when the run stands in
    parentheses, else 0). No flag is set: the match is by code unit, case
    sensitive, and only the first match counts. *)
Record t := mk { literal : jsstring; closing : char16; groups : nat }.

(** The result of a successful [exec]: the text before the match
    ([input.slice(0, index)]), the run, and the text after the match. *)
Record result := mkResult { before : jsstring; run : jsstring; after : jsstring }.

Fixpoint stripPrefix (p s : jsstring) : option jsstring :=
  match p, s with
  | [], _ => Some s
  | x :: p', y :: s' => if x =? y then stripPrefix p' s' else None
  | _ :: _, [] => None
  end.

(** A run up to the first closing code unit: the run and what follows the
    closing unit. *)
Fixpoint upTo (stop : char16) (s : jsstring) : option (jsstring * jsstring) :=
  match s with
  | [] => None
  | c :: r =>
      if c =? stop then Some ([], r)
      else match upTo stop r with
           | Some (b, a) => Some (c :: b, a)
           | None => None
           end
  end.

(** A match that starts at the head of [s]. *)
Definition matchHere (re : t) (s : jsstring) : option (jsstring * jsstring) :=
  match stripPrefix (literal re) s with
  | Some r => upTo (closing re) r
  | None => None
  end.

(** The leftmost match: every start position is tried in turn. *)
Fixpoint exec (re : t) (s : jsstring) : option result :=
  match matchHere re s with
  | Some (b, a) => Some (mkResult [] b a)
  | None =>
      match s with
      | [] => None
      | c :: r =>
          match exec re r with
          | Some m => Some (mkResult (c :: before m) (run m) (after m))
          | None => None
          end
      end
  end.

(** The matched text, [match[0]]. *)
Definition matched (re : t) (m : result) : jsstring :=
  literal re ++ run m ++ [closing re].

(** The captures, [match[1]], ... *)
Definition captures (re : t) (m : result) : list jsstring :=
  match groups re with O => [] | _ => [run m] end.

Definition isDigit (c : char16) : bool := (48 <=? c) && (c <=? 57).

(** GetSubstitution (ECMA-262, 22.1.3.19.1) for a regular expression with
    no named groups: the replacement patterns of a replacement string. *)
Fixpoint getSubstitution (matchedText pre post : jsstring) (caps : list jsstring)
         (template : jsstring) : jsstring :=
  let m := N.of_nat (List.length caps) in
  let capture i := nth (N.to_nat (i - 1)) caps [] in
  match template with
  | [] => []
  | c :: rest =>
      if negb (c =? 36) then c :: getSubstitution matchedText pre post caps rest
      else
        match rest with
        | [] => [36]
        | c1 :: r1 =>
            if c1 =? 36 then 36 :: getSubstitution matchedText pre post caps r1
            else if c1 =? 96 then pre ++ getSubstitution matchedText pre post caps r1
            else if c1 =? 38 then matchedText ++ getSubstitution matchedText pre post caps r1
            else if c1 =? 39 then post ++ getSubstitution matchedText pre post caps r1
            else if isDigit c1 then
              let oneDigit :=
                let i := c1 - 48 in
                if (1 <=? i) && (i <=? m)
                then capture i ++ getSubstitution matchedText pre post caps r1
                else 36 :: c1 :: getSubstitution matchedText pre post caps r1 in
              match r1 with
              | c2 :: r2 =>
                  if isDigit c2 then
                    let i := 10 * (c1 - 48) + (c2 - 48) in
                    if m <? i then oneDigit
                    else if 1 <=? i
                         then capture i ++ getSubstitution matchedText pre post caps r2
                         else 36 :: c1 :: c2 :: getSubstitution matchedText pre post caps r2
                  else oneDigit
              | [] => oneDigit
              end
            else 36 :: getSubstitution matchedText pre post caps rest
        end
  end.

(** [input.match(re)] of a regular expression without the g flag. *)
Definition match_ (input : jsstring) (re : t) : option result := exec re input.

(** [input.replace(re, replacement)] with a replacement string: the first
    match is replaced by the expansion of the replacement; without a match
    the input is returned. *)
Definition replace (input : jsstring) (re : t) (replacement : jsstring) : jsstring :=
  match exec re input with
  | None => input
  | Some m =>
      before m
      ++ getSubstitution (matched re m) (before m) (after m) (captures re m) replacement
      ++ after m
  end.
End RegExp.

(** ** Completions, and the trace of what a computation does to its host *)

Inductive Exception :=
| URIError
| InvalidCharacterError
| HostException (code : N).

Inductive Completion (A : Type) :=
| Return (a : A)
| Throw (e : Exception).
Arguments Return {A} a.
Arguments Throw {A} e.

(** ** The document tree *)

(** An element: its qualified name, its attributes in the order of its
    attribute list, and its children, each an element or character data. *)
Inductive Element :=
| mkElement (tagName : jsstring) (attributes : list (jsstring * jsstring))
            (childNodes : list Node)
with Node :=
| ElementNode (e : Element)
| CharacterData (data : jsstring).

Record Document := mkDocument { documentElement : Element }.

Module Dom.
Local Open Scope N_scope.

Definition tagName (e : Element) : jsstring :=
  match e with mkElement t _ _ => t end.
Definition attributes (e : Element) : list (jsstring * jsstring) :=
  match e with mkElement _ a _ => a end.
Definition childNodes (e : Element) : list Node :=
  match e with mkElement _ _ c => c end.

(** The local name: the qualified name without its prefix. *)
Fixpoint afterColon (s : jsstring) : option jsstring :=
  match s with
  | [] => None
  | c :: r => if c =? 58 then Some r else afterColon r
  end.

Definition localName (e : Element) : jsstring :=
  match afterColon (tagName e) with
  | Some l => l
  | None => tagName e
  end.

(** [getAttribute]: the value of the first attribute of that name. *)
Fixpoint lookup (name : jsstring) (attrs : list (jsstring * jsstring)) : option jsstring :=
  match attrs with
  | [] => None
  | (n, v) :: r => if jseqb n name then Some v else lookup name r
  end.

Definition getAttribute (name : jsstring) (e : Element) : option jsstring :=
  lookup name (attributes e).

(** [removeAttribute]: the first attribute of that name, if there is one,
    leaves the attribute list. *)
Fixpoint removeFirst (name : jsstring) (attrs : list (jsstring * jsstring))
  : list (jsstring * jsstring) :=
  match attrs with
  | [] => []
  | (n, v) :: r => if jseqb n name then r else (n, v) :: removeFirst name r
  end.

Definition removeAttribute (name : jsstring) (e : Element) : Element :=
  match e with mkElement t a c => mkElement t (removeFirst name a) c end.

(** The element and its descendant elements, in document order. *)
Fixpoint inclusiveDescendants (e : Element) : list Element :=
  match e with
  | mkElement _ _ cs =>
      e :: flat_map (fun c => match c with
                              | ElementNode e' => inclusiveDescendants e'
                              | CharacterData _ => []
                              end) cs
  end.

(** No two names are the same. *)
Fixpoint distinct (names : list jsstring) : bool :=
  match names with
  | [] => true
  | n :: r => negb (existsb (jseqb n) r) && distinct r
  end.

(** The invariant of a tree that a parser built: the attributes of an
    element have distinct qualified names. *)
Definition wellFormed (e : Element) : bool :=
  forallb (fun x => distinct (map fst (attributes x))) (inclusiveDescendants e).

(** [doc.querySelector(name)] with a type selector: the first element of
    the document, in document order, of that local name. *)
Definition querySelector (name : jsstring) (doc : Document) : option Element :=
  find (fun e => jseqb (localName e) name) (inclusiveDescendants (documentElement doc)).

(** A reference to a node of the tree under an element: the child indexes
    on the way down. The code holds such references in a NodeList and
    mutates the tree through them. *)
Definition NodeRef := list nat.

(** [element.querySelectorAll('*')]: references to all descendant elements
    (the element itself is none), in document order. *)
Fixpoint querySelectorAll (e : Element) : list NodeRef :=
  match e with
  | mkElement _ _ cs =>
      (fix children (i : nat) (cs : list Node) : list NodeRef :=
         match cs with
         | [] => []
         | ElementNode e' :: r =>
             ([i] :: map (cons i) (querySelectorAll e')) ++ children (S i) r
         | CharacterData _ :: r => children (S i) r
         end) O cs
  end.

Fixpoint updateNth {A} (i : nat) (f : A -> A) (l : list A) : list A :=
  match l, i with
  | [], _ => []
  | x :: r, O => f x :: r
  | x :: r, S j => x :: updateNth j f r
  end.

(** The tree after the element a reference points to was mutated by [f]. *)
Fixpoint mutate (ref : NodeRef) (f : Element -> Element) (e : Element) : Element :=
  match ref with
  | [] => f e
  | i :: ref' =>
      match e with
      | mkElement t a cs =>
          mkElement t a (updateNth i (fun c => match c with
                                               | ElementNode e' => ElementNode (mutate ref' f e')
                                               | CharacterData d => CharacterData d
                                               end) cs)
      end
  end.

(** [nodeList.forEach(el => f(el))], threading the tree the references
    point into. *)
Definition forEach (refs : list NodeRef) (f : Element -> Element) (e : Element) : Element :=
  fold_left (fun tree ref => mutate ref f tree) refs e.
End Dom.

(** ** The host: the markup parser and serializer of the browser *)

(** [new DOMParser().parseFromString(text, mimeType)] and
    [new XMLSerializer().serializeToString(element)]. Either may complete
    abruptly. A parse error is not an exception: the parser then returns a
    document that holds a [parsererror] element. *)
Class Host := {
  parseFromString : jsstring -> jsstring -> Completion Document;
  serializeToString : Element -> Completion jsstring
}.

(** What a computation did, in order: its calls of the host and its lines
    on the diagnostic channel. *)
Inductive Event :=
| Parsed (text mimeType : jsstring)
| Serialized (e : Element)
| ConsoleError (message : jsstring) (detail : option Exception).

(** A computation: the trace it leaves and how it completes. *)
Definition M (A : Type) : Type := list Event * Completion A.

Module Monad.
Definition ret {A} (a : A) : M A := ([], Return a).

Definition bind {A B} (m : M A) (k : A -> M B) : M B :=
  match m with
  | (tr, Return a) => let (tr', c) := k a in (tr ++ tr', c)
  | (tr, Throw e) => (tr, Throw e)
  end.

(** [try { body } catch (error) { handler }] *)
Definition tryCatch {A} (body : M A) (handler : Exception -> M A) : M A :=
  match body with
  | (tr, Return a) => (tr, Return a)
  | (tr, Throw e) => let (tr', c) := handler e in (tr ++ tr', c)
  end.

(** A call of the host, recorded. *)
Definition lift {A} (ev : Event) (c : Completion A) : M A := ([ev], c).

(** A call of a function of the language, which leaves no trace. *)
Definition pure {A} (c : Completion A) : M A := ([], c).

Definition consoleError (message : jsstring) (detail : option Exception) : M unit :=
  ([ConsoleError message detail], Return tt).

Definition completion {A} (m : M A) : Completion A := snd m.
End Monad.

Declare Scope js_scope.
Delimit Scope js_scope with js.
Notation "x <- m ;; k" := (Monad.bind m (fun x => k))
  (at level 61, m at next level, right associativity) : js_scope.
Notation "m ;; k" := (Monad.bind m (fun _ => k))
  (at level 61, right associativity) : js_scope.
Notation "'try' body 'catch' x => handler" := (Monad.tryCatch body (fun x => handler))
  (at level 62, x name, body at level 61, handler at level 61) : js_scope.

(** ** Text encodings: UTF-16, UTF-8, percent escapes, base64 *)

Module Utf.
Local Open Scope N_scope.

Definition isLeadSurrogate (c : char16) : bool := (55296 <=? c) && (c <=? 56319).
Definition isTrailSurrogate (c : char16) : bool := (56320 <=? c) && (c <=? 57343).

(** UTF16SurrogatePairToCodePoint *)
Definition pairToCodePoint (lead trail : char16) : N :=
  (lead - 55296) * 1024 + (trail - 56320) + 65536.

(** The code points of a string, when every surrogate is paired. *)
Fixpoint codePoints (s : jsstring) : option (list N) :=
  let cons cp rest := match rest with Some l => Some (cp :: l) | None => None end in
  match s with
  | [] => Some []
  | c :: r =>
      if isTrailSurrogate c then None
      else if isLeadSurrogate c then
        match r with
        | d :: r' =>
            if isTrailSurrogate d then cons (pairToCodePoint c d) (codePoints r') else None
        | [] => None
        end
      else cons c (codePoints r)
  end.

(** [String.prototype.isWellFormed]: no unpaired surrogate. *)
Definition isWellFormed (s : jsstring) : bool :=
  match codePoints s with Some _ => true | None => false end.

(** The octets of the UTF-8 form of a code point. *)
Definition utf8Encode (cp : N) : list N :=
  if cp <? 128 then [cp]
  else if cp <? 2048 then [192 + cp / 64; 128 + cp mod 64]
  else if cp <? 65536 then [224 + cp / 4096; 128 + (cp / 64) mod 64; 128 + cp mod 64]
  else [240 + cp / 262144; 128 + (cp / 4096) mod 64; 128 + (cp / 64) mod 64;
        128 + cp mod 64].
End Utf.

Module URI.
Local Open Scope N_scope.

Definition isAlnum (c : char16) : bool :=
  ((48 <=? c) && (c <=? 57)) || ((65 <=? c) && (c <=? 90)) || ((97 <=? c) && (c <=? 122)).

(** The code units [encodeURIComponent] leaves as they are: the
    alphanumeric ones and - _ . ! ~ * ' ( ) *)
Definition isUnescaped (c : char16) : bool :=
  isAlnum c || (c =? 45) || (c =? 95) || (c =? 46) || (c =? 33) || (c =? 126)
  || (c =? 42) || (c =? 39) || (c =? 40) || (c =? 41).

Definition hexChar (d : N) : char16 := if d <? 10 then 48 + d else 55 + d.

(** An octet as a percent sign and two upper-case hexadecimal digits. *)
Definition escapeOctet (b : N) : jsstring := [37; hexChar (b / 16); hexChar (b mod 16)].

Definition escapeCodePoint (cp : N) : jsstring :=
  flat_map escapeOctet (Utf.utf8Encode cp).

Definition prepend (x : jsstring) (c : Completion jsstring) : Completion jsstring :=
  match c with
  | Return r => Return (x ++ r)
  | Throw e => Throw e
  end.

(** [encodeURIComponent] (ECMA-262, 19.2.6.5): an unpaired surrogate makes
    it throw a URIError. *)
Fixpoint encodeURIComponent (s : jsstring) : Completion jsstring :=
  match s with
  | [] => Return []
  | c :: r =>
      if isUnescaped c then prepend [c] (encodeURIComponent r)
      else if Utf.isTrailSurrogate c then Throw URIError
      else if Utf.isLeadSurrogate c then
        match r with
        | d :: r' =>
            if Utf.isTrailSurrogate d
            then prepend (escapeCodePoint (Utf.pairToCodePoint c d)) (encodeURIComponent r')
            else Throw URIError
        | [] => Throw URIError
        end
      else prepend (escapeCodePoint c) (encodeURIComponent r)
  end.

Definition hexValue (c : char16) : option N :=
  if (48 <=? c) && (c <=? 57) then Some (c - 48)
  else if (65 <=? c) && (c <=? 70) then Some (c - 55)
  else if (97 <=? c) && (c <=? 102) then Some (c - 87)
  else None.

Definition hex2 (a b : char16) : option N :=
  match hexValue a, hexValue b with
  | Some x, Some y => Some (16 * x + y)
  | _, _ => None
  end.

Definition hex4 (a b c d : char16) : option N :=
  match hex2 a b, hex2 c d with
  | Some x, Some y => Some (256 * x + y)
  | _, _ => None
  end.

(** [unescape] (ECMA-262, B.2.1.2): a percent sign with u and four
    hexadecimal digits, or with two hexadecimal digits, is the code unit
    of that value; any other code unit stands for itself. *)
Fixpoint unescape (s : jsstring) : jsstring :=
  match s with
  | [] => []
  | c :: r =>
      if negb (c =? 37) then c :: unescape r
      else
        let twoDigits :=
          match r with
          | a :: b :: r2 =>
              match hex2 a b with
              | Some n => n :: unescape r2
              | None => c :: unescape r
              end
          | _ => c :: unescape r
          end in
        match r with
        | u :: a :: b :: x :: y :: r5 =>
            if u =? 117 then
              match hex4 a b x y with
              | Some n => n :: unescape r5
              | None => c :: unescape r
              end
            else twoDigits
        | _ => twoDigits
        end
  end.
End URI.

Module Base64.
Local Open Scope N_scope.

(** The base64 alphabet: A-Z, a-z, 0-9, + and /. *)
Definition alphabet (i : N) : char16 :=
  if i <? 26 then 65 + i
  else if i <? 52 then 71 + i
  else if i <? 62 then i - 4
  else if i =? 62 then 43
  else 47.

Fixpoint encode (bytes : list N) : jsstring :=
  match bytes with
  | [] => []
  | [a] => [alphabet (a / 4); alphabet ((a mod 4) * 16); 61; 61]
  | [a; b] => [alphabet (a / 4); alphabet ((a mod 4) * 16 + b / 16);
               alphabet ((b mod 16) * 4); 61]
  | a :: b :: c :: r =>
      alphabet (a / 4) :: alphabet ((a mod 4) * 16 + b / 16)
      :: alphabet ((b mod 16) * 4 + c / 64) :: alphabet (c mod 64) :: encode r
  end.

(** [btoa] (HTML, 8.3): a code unit above U+00FF makes it throw an
    InvalidCharacterError; else the string is read as bytes. *)
Definition btoa (data : jsstring) : Completion jsstring :=
  if forallb (fun c => c <=? 255) data then Return (encode data)
  else Throw InvalidCharacterError.

(** The reading of base64 text that the statements about data URLs use. *)
Definition value (c : char16) : option N :=
  if (65 <=? c) && (c <=? 90) then Some (c - 65)
  else if (97 <=? c) && (c <=? 122) then Some (c - 71)
  else if (48 <=? c) && (c <=? 57) then Some (c + 4)
  else if c =? 43 then Some 62
  else if c =? 47 then Some 63
  else None.

Fixpoint decode (s : jsstring) : option (list N) :=
  match s with
  | [] => Some []
  | w :: x :: y :: z :: r =>
      match value w, value x with
      | Some p, Some q =>
          let b1 := p * 4 + q / 16 in
          match value y, value z, r with
          | Some u, Some v, _ =>
              match decode r with
              | Some bs => Some (b1 :: (q mod 16) * 16 + u / 4 :: (u mod 4) * 64 + v :: bs)
              | None => None
              end
          | Some u, None, [] =>
              if z =? 61 then Some [b1; (q mod 16) * 16 + u / 4] else None
          | None, None, [] =>
              if (y =? 61) && (z =? 61) then Some [b1] else None
          | _, _, _ => None
          end
      | _, _ => None
      end
  | _ => None
  end.
End Base64.

Module Utf8Decode.
Local Open Scope N_scope.

Definition isContinuation (b : N) : bool := (128 <=? b) && (b <=? 191).

(** The code points of well-formed UTF-8: shortest forms only, no
    surrogates, nothing above U+10FFFF. *)
Fixpoint codePoints (bytes : list N) : option (list N) :=
  let cons cp rest := match rest with Some l => Some (cp :: l) | None => None end in
  match bytes with
  | [] => Some []
  | a :: r =>
      if a <? 128 then cons a (codePoints r)
      else
        match r with
        | b :: r2 =>
            if negb (isContinuation b) then None
            else if (192 <=? a) && (a <? 224) then
              let cp := (a - 192) * 64 + (b - 128) in
              if 128 <=? cp then cons cp (codePoints r2) else None
            else
              match r2 with
              | c :: r3 =>
                  if negb (isContinuation c) then None
                  else if (224 <=? a) && (a <? 240) then
                    let cp := (a - 224) * 4096 + (b - 128) * 64 + (c - 128) in
                    if (2048 <=? cp) && negb ((55296 <=? cp) && (cp <=? 57343))
                    then cons cp (codePoints r3) else None
                  else
                    match r3 with
                    | d :: r4 =>
                        if negb (isContinuation d) then None
                        else if (240 <=? a) && (a <? 248) then
                          let cp := (a - 240) * 262144 + (b - 128) * 4096
                                    + (c - 128) * 64 + (d - 128) in
                          if (65536 <=? cp) && (cp <=? 1114111)
                          then cons cp (codePoints r4) else None
                        else None
                    | [] => None
                    end
              | [] => None
              end
        | [] => None
        end
  end.

(** A code point as UTF-16 code units. *)
Definition utf16Encode (cp : N) : jsstring :=
  if cp <? 65536 then [cp]
  else [55296 + (cp - 65536) / 1024; 56320 + (cp - 65536) mod 1024].

(** UTF-8 octets read as a JavaScript string. *)
Definition decode (bytes : list N) : option jsstring :=
  match codePoints bytes with
  | Some cps => Some (flat_map utf16Encode cps)
  | None => None
  end.
End Utf8Decode.

(** ** The derived values of the [App] component that are pure string code *)

Module App.
Local Open Scope N_scope.

(** [parsedSizes], as a function of [options.outputSizes]. *)
Definition parsedSizes (outputSizes : jsstring) : list Number :=
  filter (fun n => negb (Num.isNaN n) && Num.gt0 n)
         (map (fun s => Num.parseInt (Str.trim s) 10) (Str.split 44 outputSizes)).

(** The regular expression literals of [previewRenderSvg]. *)
Definition svgTagRegex : RegExp.t := RegExp.mk (lit "<svg") 62 1.
Definition fillRegex : RegExp.t := RegExp.mk (qlit "fill='") 34 0.
Definition strokeRegex : RegExp.t := RegExp.mk (qlit "stroke='") 34 0.

(** [previewRenderSvg], as a function of [baseOptimizedSvg] and
    [options.previewColor]. *)
Definition previewRenderSvg (baseOptimizedSvg previewColor : jsstring) : jsstring :=
  if negb (Str.truthy baseOptimizedSvg) then []
  else
    match RegExp.match_ baseOptimizedSvg svgTagRegex with
    | None => baseOptimizedSvg
    | Some m =>
        let attributes := RegExp.run m in
        let attributes :=
          RegExp.replace (RegExp.replace attributes fillRegex []) strokeRegex [] in
        let newSvgTag :=
          lit "<svg" ++ attributes ++ qlit " fill='" ++ previewColor ++ qlit "'>" in
        RegExp.replace baseOptimizedSvg svgTagRegex newSvgTag
    end.

(** [outputSvg] *)
Definition outputSvg (applyPreviewColor : bool)
           (previewRenderSvg baseOptimizedSvg : jsstring) : jsstring :=
  if applyPreviewColor then previewRenderSvg else baseOptimizedSvg.

(** [svgPreviewUrl], as a function of [previewRenderSvg]. *)
Definition svgPreviewUrl (previewRenderSvg : jsstring) : M jsstring :=
  (if negb (Str.truthy previewRenderSvg) then Monad.ret []
   else
     try
       (escaped <- Monad.pure (URI.encodeURIComponent previewRenderSvg) ;;
        base64 <- Monad.pure (Base64.btoa (URI.unescape escaped)) ;;
        Monad.ret (lit "data:image/svg+xml;base64," ++ base64))
     catch e =>
       (Monad.consoleError (lit "Error creating SVG data URL") (Some e) ;;
        Monad.ret []))%js.
End App.


(** ** The attribute transformer *)

(** [SvgOptions] of [src/types.ts]. *)
Record SvgOptions := {
  removeClasses : bool;
  removeWidth : bool;
  removeHeight : bool;
  removeXmlns : bool;
  previewColor : jsstring;
  applyPreviewColor : bool;
  outputSizes : jsstring
}.

Section Transformer.
Context {host : Host}.
Local Open Scope js_scope.
Import Monad.

(** [optimizeSvgBase]; it reads the four removal flags of its options. *)
Definition optimizeSvgBase (svgString : jsstring) (options : SvgOptions) : M jsstring :=
  if negb (Str.truthy (Str.trim svgString)) then ret []
  else
    try
      (doc <- lift (Parsed svgString (lit "image/svg+xml"))
                   (parseFromString svgString (lit "image/svg+xml")) ;;
       let svgElement := documentElement doc in
       if negb (jseqb (Str.toLowerCase (Dom.tagName svgElement)) (lit "svg"))
          || (match Dom.querySelector (lit "parsererror") doc with
              | Some _ => true
              | None => false
              end)
       then
         consoleError (lit "Invalid SVG input") None ;;
         ret svgString
       else
         let svgElement :=
           if removeXmlns options
           then Dom.removeAttribute (lit "xmlns") svgElement else svgElement in
         let svgElement :=
           if removeWidth options
           then Dom.removeAttribute (lit "width") svgElement else svgElement in
         let svgElement :=
           if removeHeight options
           then Dom.removeAttribute (lit "height") svgElement else svgElement in
         let svgElement :=
           if removeClasses options
           then
             let svgElement :=
               Dom.forEach (Dom.querySelectorAll svgElement)
                           (fun el => Dom.removeAttribute (lit "class") el) svgElement in
             Dom.removeAttribute (lit "class") svgElement
           else svgElement in
         lift (Serialized svgElement) (serializeToString svgElement))
    catch error =>
      (consoleError (lit "Error optimizing SVG:") (Some error) ;;
       ret svgString).
End Transformer.


(** ** The text of a data URL *)

(** What the body of the try block of [svgPreviewUrl] computes:
    [btoa(unescape(encodeURIComponent(text)))]. *)
Definition base64OfText (text : jsstring) : Completion jsstring :=
  match URI.encodeURIComponent text with
  | Return escaped => Base64.btoa (URI.unescape escaped)
  | Throw e => Throw e
  end.

Definition dataUrlPrefix : jsstring := lit "data:image/svg+xml;base64,".

(** The text a data URL of that media type carries: its base64 payload,
    read as UTF-8. *)
Definition dataUrlText (url : jsstring) : option jsstring :=
  match RegExp.stripPrefix (lit "data:image/svg+xml;base64,") url with
  | Some payload =>
      match Base64.decode payload with
      | Some bytes => Utf8Decode.decode bytes
      | None => None
      end
  | None => None
  end.

(** ** A reference host

    A small markup reader and writer that instantiates [Host] in the
    examples: elements, attributes in double quotes and character data,
    without namespaces, entities, comments or declarations. Ill-formed text
    is answered, as the browsers do, by a document whose root is a
    [parsererror] element. *)

Module RefHost.
Local Open Scope N_scope.

Definition isSpace (c : char16) : bool :=
  (c =? 32) || (c =? 9) || (c =? 10) || (c =? 13).

Definition isNameStart (c : char16) : bool :=
  ((65 <=? c) && (c <=? 90)) || ((97 <=? c) && (c <=? 122)) || (c =? 95) || (c =? 58).

Definition isNameChar (c : char16) : bool :=
  isNameStart c || ((48 <=? c) && (c <=? 57)) || (c =? 45) || (c =? 46).

Fixpoint span (p : char16 -> bool) (s : jsstring) : jsstring * jsstring :=
  match s with
  | c :: r => if p c then let (a, b) := span p r in (c :: a, b) else ([], s)
  | [] => ([], [])
  end.

Definition skipSpace (s : jsstring) : jsstring := snd (span isSpace s).

Definition name (s : jsstring) : option (jsstring * jsstring) :=
  match span isNameChar s with
  | (c :: n, r) => if isNameStart c then Some (c :: n, r) else None
  | ([], _) => None
  end.

(** Character data and attribute values are kept verbatim, so none may
    hold an ampersand or an opening angle bracket. *)
Definition verbatim (s : jsstring) : bool :=
  forallb (fun c => negb ((c =? 38) || (c =? 60))) s.

Fixpoint attributes (fuel : nat) (s : jsstring)
  : option (list (jsstring * jsstring) * jsstring) :=
  match fuel with
  | O => None
  | S fuel' =>
      match span isSpace s with
      | (_, []) => None
      | (sp, c :: r) =>
          if (c =? 62) || (c =? 47) then Some ([], c :: r)
          else
            match sp, name (c :: r) with
            | _ :: _, Some (n, 61 :: 34 :: r1) =>
                match RegExp.upTo 34 r1 with
                | Some (v, r2) =>
                    if verbatim v then
                      match attributes fuel' r2 with
                      | Some (l, r3) => Some ((n, v) :: l, r3)
                      | None => None
                      end
                    else None
                | None => None
                end
            | _, _ => None
            end
      end
  end.

Fixpoint element (fuel : nat) (s : jsstring) : option (Element * jsstring) :=
  match fuel with
  | O => None
  | S fuel' =>
      match s with
      | 60 :: r =>
          match name r with
          | Some (tag, r1) =>
              match attributes (S (List.length r1)) r1 with
              | Some (a, r2) =>
                  if Dom.distinct (map fst a) then
                    match r2 with
                    | 47 :: 62 :: r3 => Some (mkElement tag a [], r3)
                    | 62 :: r3 =>
                        match content fuel' r3 with
                        | Some (cs, 60 :: 47 :: r4) =>
                            match RegExp.stripPrefix tag r4 with
                            | Some r5 =>
                                match skipSpace r5 with
                                | 62 :: r6 => Some (mkElement tag a cs, r6)
                                | _ => None
                                end
                            | None => None
                            end
                        | _ => None
                        end
                    | _ => None
                    end
                  else None
              | None => None
              end
          | None => None
          end
      | _ => None
      end
  end
with content (fuel : nat) (s : jsstring) : option (list Node * jsstring) :=
  match fuel with
  | O => None
  | S fuel' =>
      match s with
      | [] => Some ([], [])
      | 60 :: 47 :: _ => Some ([], s)
      | 60 :: _ =>
          match element fuel' s with
          | Some (e, r) =>
              match content fuel' r with
              | Some (cs, r') => Some (ElementNode e :: cs, r')
              | None => None
              end
          | None => None
          end
      | _ =>
          let (data, r) := span (fun c => negb (c =? 60)) s in
          if verbatim data then
            match content fuel' r with
            | Some (cs, r') => Some (CharacterData data :: cs, r')
            | None => None
            end
          else None
      end
  end.

Definition parsererror : Document :=
  mkDocument (mkElement (lit "parsererror") [] [CharacterData (lit "error")]).

Definition parse (s : jsstring) : Document :=
  let s := skipSpace s in
  match element (2 * List.length s + 2) s with
  | Some (e, r) =>
      match skipSpace r with
      | [] => mkDocument e
      | _ => parsererror
      end
  | None => parsererror
  end.

Definition attribute (a : jsstring * jsstring) : jsstring :=
  32 :: fst a ++ 61 :: 34 :: snd a ++ [34].

Fixpoint serialize (e : Element) : jsstring :=
  match e with
  | mkElement tag a cs =>
      60 :: tag ++ flat_map attribute a
      ++ match cs with
         | [] => [47; 62]
         | _ => 62 :: flat_map (fun c => match c with
                                         | ElementNode e' => serialize e'
                                         | CharacterData d => d
                                         end) cs
                ++ 60 :: 47 :: tag ++ [62]
         end
  end.

#[export] Instance host : Host := {
  parseFromString text _ := Return (parse text);
  serializeToString e := Return (serialize e)
}.

(** A host whose serializer fails. *)
Definition failing : Host := {|
  parseFromString text _ := Return (parse text);
  serializeToString _ := Throw (HostException 11)
|}.
End RefHost.

(** ** A host nearer to the browsers

    A reader and a writer for SVG documents that follow the XML parser and
    the XML serialization algorithm of the browsers in three matters the
    reference host leaves out. The reader translates the line ends of its
    input (XML 1.0, 2.11) and replaces character references and the five
    predefined entities (4.1, 4.6); in attribute values it turns white
    space into spaces (3.3.3). The writer escapes the markup characters of
    character data and attribute values. And the writer declares the
    namespace of the root: a parsed element keeps the namespace of the
    declaration that was in scope when it was read, whatever happens to
    its xmlns attribute afterwards, and the root of an SVG document is
    written with a declaration of the SVG namespace when it carries none
    (DOM Parsing and Serialization, XML serialization of an element: the
    case of an element without prefix whose namespace is not the inherited
    one and that has no default namespace declaration of its own).
    Prefixes, comments, processing instructions, CDATA sections and
    document types are outside this reader. *)

Module XmlHost.
Local Open Scope N_scope.

Definition svgNamespace : jsstring := lit "http://www.w3.org/2000/svg".

(** The line ends of the input: a carriage return with the line feed
    after it, and a carriage return alone, are read as one line feed. *)
Fixpoint lineEnds (s : jsstring) : jsstring :=
  match s with
  | 13 :: 10 :: r => 10 :: lineEnds r
  | 13 :: r => 10 :: lineEnds r
  | c :: r => c :: lineEnds r
  | [] => []
  end.

(** The code points a document may hold (production Char). *)
Definition isChar (cp : N) : bool :=
  (cp =? 9) || (cp =? 10) || (cp =? 13) || ((32 <=? cp) && (cp <=? 55295))
  || ((57344 <=? cp) && (cp <=? 65533)) || ((65536 <=? cp) && (cp <=? 1114111)).

(** The number a non-empty run of digits of radix [R] writes. *)
Definition numeral (R : N) (ds : jsstring) : option N :=
  let vs := Num.digitsPrefix R ds in
  if (List.length vs =? List.length ds)%nat && negb (List.length ds =? 0)%nat
  then Some (Num.mathInt R vs) else None.

Definition charRef (cp : option N) : option jsstring :=
  match cp with
  | Some cp => if isChar cp then Some (Utf8Decode.utf16Encode cp) else None
  | None => None
  end.

(** What stands for the reference whose text between the ampersand and
    the semicolon is [name]. *)
Definition reference (name : jsstring) : option jsstring :=
  match name with
  | 35 :: 120 :: ds => charRef (numeral 16 ds)
  | 35 :: ds => charRef (numeral 10 ds)
  | _ =>
      if jseqb name (lit "amp") then Some [38]
      else if jseqb name (lit "lt") then Some [60]
      else if jseqb name (lit "gt") then Some [62]
      else if jseqb name (lit "quot") then Some [34]
      else if jseqb name (lit "apos") then Some [39]
      else None
  end.

(** Character data or, with [value] set, an attribute value as the parser
    reports it: references are replaced, and in a value every white space
    character that is written out becomes a space. *)
Fixpoint decode (fuel : nat) (value : bool) (s : jsstring) : option jsstring :=
  match fuel with
  | O => None
  | S fuel' =>
      match s with
      | [] => Some []
      | c :: r =>
          if c =? 38 then
            match RegExp.upTo 59 r with
            | Some (name, r') =>
                match reference name, decode fuel' value r' with
                | Some cs, Some t => Some (cs ++ t)
                | _, _ => None
                end
            | None => None
            end
          else if c =? 60 then None
          else
            match decode fuel' value r with
            | Some t => Some ((if value && RefHost.isSpace c then 32 else c) :: t)
            | None => None
            end
      end
  end.

Fixpoint attributes (fuel : nat) (s : jsstring)
  : option (list (jsstring * jsstring) * jsstring) :=
  match fuel with
  | O => None
  | S fuel' =>
      match RefHost.span RefHost.isSpace s with
      | (_, []) => None
      | (sp, c :: r) =>
          if (c =? 62) || (c =? 47) then Some ([], c :: r)
          else
            match sp, RefHost.name (c :: r) with
            | _ :: _, Some (n, 61 :: q :: r1) =>
                if (q =? 34) || (q =? 39) then
                  match RegExp.upTo q r1 with
                  | Some (v, r2) =>
                      match decode (S (List.length v)) true v, attributes fuel' r2 with
                      | Some v', Some (l, r3) => Some ((n, v') :: l, r3)
                      | _, _ => None
                      end
                  | None => None
                  end
                else None
            | _, _ => None
            end
      end
  end.

Fixpoint element (fuel : nat) (s : jsstring) : option (Element * jsstring) :=
  match fuel with
  | O => None
  | S fuel' =>
      match s with
      | 60 :: r =>
          match RefHost.name r with
          | Some (tag, r1) =>
              match attributes (S (List.length r1)) r1 with
              | Some (a, r2) =>
                  if Dom.distinct (map fst a) then
                    match r2 with
                    | 47 :: 62 :: r3 => Some (mkElement tag a [], r3)
                    | 62 :: r3 =>
                        match content fuel' r3 with
                        | Some (cs, 60 :: 47 :: r4) =>
                            match RegExp.stripPrefix tag r4 with
                            | Some r5 =>
                                match RefHost.skipSpace r5 with
                                | 62 :: r6 => Some (mkElement tag a cs, r6)
                                | _ => None
                                end
                            | None => None
                            end
                        | _ => None
                        end
                    | _ => None
                    end
                  else None
              | None => None
              end
          | None => None
          end
      | _ => None
      end
  end
with content (fuel : nat) (s : jsstring) : option (list Node * jsstring) :=
  match fuel with
  | O => None
  | S fuel' =>
      match s with
      | [] => Some ([], [])
      | 60 :: 47 :: _ => Some ([], s)
      | 60 :: _ =>
          match element fuel' s with
          | Some (e, r) =>
              match content fuel' r with
              | Some (cs, r') => Some (ElementNode e :: cs, r')
              | None => None
              end
          | None => None
          end
      | _ =>
          let (data, r) := RefHost.span (fun c => negb (c =? 60)) s in
          match decode (S (List.length data)) false data, content fuel' r with
          | Some data', Some (cs, r') => Some (CharacterData data' :: cs, r')
          | _, _ => None
          end
      end
  end.

Definition parse (text : jsstring) : Document :=
  let s := RefHost.skipSpace (lineEnds text) in
  match element (2 * List.length s + 2) s with
  | Some (e, r) =>
      match RefHost.skipSpace r with
      | [] => mkDocument e
      | _ => RefHost.parsererror
      end
  | None => RefHost.parsererror
  end.

(** The markup characters of character data and, with [value] set, of an
    attribute value, as the writer escapes them. *)
Definition escape (value : bool) (s : jsstring) : jsstring :=
  flat_map (fun c => if c =? 38 then lit "&amp;"
                     else if c =? 60 then lit "&lt;"
                     else if c =? 62 then lit "&gt;"
                     else if value && (c =? 34) then lit "&quot;"
                     else [c]) s.

Definition attribute (a : jsstring * jsstring) : jsstring :=
  32 :: fst a ++ 61 :: 34 :: escape true (snd a) ++ [34].

(** An element, with the text of a namespace declaration to write after
    its name. *)
Fixpoint write (declaration : jsstring) (e : Element) : jsstring :=
  match e with
  | mkElement tag a cs =>
      60 :: tag ++ declaration ++ flat_map attribute a
      ++ match cs with
         | [] => [47; 62]
         | _ => 62 :: flat_map (fun c => match c with
                                         | ElementNode e' => write [] e'
                                         | CharacterData d => escape false d
                                         end) cs
                ++ 60 :: 47 :: tag ++ [62]
         end
  end.

Definition serialize (root : Element) : jsstring :=
  write (match Dom.getAttribute (lit "xmlns") root with
         | Some _ => []
         | None => attribute (lit "xmlns", svgNamespace)
         end) root.

Definition host : Host := {|
  parseFromString text _ := Return (parse text);
  serializeToString e := Return (serialize e)
|}.
End XmlHost.

(** ** The initial state of the component, and the scenario of the specification *)

(** [defaultSvg] *)
Definition defaultSvg : jsstring :=
  qlit "<svg xmlns='http://www.w3.org/2000/svg' width='24' height='24' viewBox='0 0 24 24' fill='none' stroke='currentColor' stroke-width='2' stroke-linecap='round' stroke-linejoin='round' class='lucide lucide-gem'>"
  ++ 10%N :: qlit "  <path d='M6 3h12l4 6-10 13L2 9Z'/>"
  ++ 10%N :: qlit "  <path d='M12 22V9'/>"
  ++ 10%N :: qlit "  <path d='m3.5 8.5 17 0'/>"
  ++ 10%N :: qlit "  <path d='M2 9h20'/>"
  ++ 10%N :: qlit "</svg>".

(** The options the component starts with. *)
Definition defaultOptions : SvgOptions := {|
  removeClasses := true;
  removeWidth := true;
  removeHeight := true;
  removeXmlns := false;
  previewColor := lit "#3b82f6";
  applyPreviewColor := false;
  outputSizes := lit "24, 32, 48"
|}.

(** Options with one flag set anew. *)
Definition withRemoveXmlns (o : SvgOptions) (b : bool) : SvgOptions :=
  Build_SvgOptions (removeClasses o) (removeWidth o) (removeHeight o) b
                   (previewColor o) (applyPreviewColor o) (outputSizes o).

Definition withRemoveClasses (o : SvgOptions) (b : bool) : SvgOptions :=
  Build_SvgOptions b (removeWidth o) (removeHeight o) (removeXmlns o)
                   (previewColor o) (applyPreviewColor o) (outputSizes o).

(** The input of the end-to-end scenario of the specification. *)
Definition scenarioSvg : jsstring :=
  qlit "<svg xmlns='http://www.w3.org/2000/svg' width='24' height='24' class='icon'><path class='p' d='M0 0'/></svg>".

(** ** The words of the specification, for the claims that are refinements *)

(** What one token of the size list contributes: trimmed, parsed as an
    integer, kept when strictly positive. *)
Definition sizeOfToken (token : jsstring) : list Number :=
  match Num.parseInt (Str.trim token) 10 with
  | Num z => if (0 <? z)%Z then [Num z] else []
  | Infinity => [Infinity]
  | NaN | NegZero | NegInfinity => []
  end.

(** The value of a run of decimal digits. *)
Definition decimalValue (digits : jsstring) : Z :=
  fold_left (fun acc c => 10 * acc + (Z.of_N c - 48))%Z digits 0%Z.

(** A token holds no comma. *)
Definition commaFree (token : jsstring) : Prop := ~ In 44%N token.

Open Scope N_scope.

(** ** Notions the statements use *)

(** The test of [optimizeSvgBase] for an input that is not an SVG document. *)
Definition invalid (doc : Document) : bool :=
  negb (jseqb (Str.toLowerCase (Dom.tagName (documentElement doc))) (lit "svg"))
  || match Dom.querySelector (lit "parsererror") doc with
     | Some _ => true
     | None => false
     end.

(** The root element as [optimizeSvgBase] hands it to the serializer. *)
Definition mutated (options : SvgOptions) (svgElement : Element) : Element :=
  let svgElement :=
    if removeXmlns options
    then Dom.removeAttribute (lit "xmlns") svgElement else svgElement in
  let svgElement :=
    if removeWidth options
    then Dom.removeAttribute (lit "width") svgElement else svgElement in
  let svgElement :=
    if removeHeight options
    then Dom.removeAttribute (lit "height") svgElement else svgElement in
  if removeClasses options
  then
    let svgElement :=
      Dom.forEach (Dom.querySelectorAll svgElement)
                  (fun el => Dom.removeAttribute (lit "class") el) svgElement in
    Dom.removeAttribute (lit "class") svgElement
  else svgElement.

(** The media type [optimizeSvgBase] asks the parser for. *)
Definition svgMime : jsstring := lit "image/svg+xml".

(** A change of the attribute lists of an element and of all its
    descendants. *)
Fixpoint deep (g : list (jsstring * jsstring) -> list (jsstring * jsstring))
         (e : Element) : Element :=
  match e with
  | mkElement t a cs =>
      mkElement t (g a)
                (map (fun c => match c with
                               | ElementNode e' => ElementNode (deep g e')
                               | CharacterData d => CharacterData d
                               end) cs)
  end.

(** The same change under a child node. *)
Definition deepNode (g : list (jsstring * jsstring) -> list (jsstring * jsstring))
           (c : Node) : Node :=
  match c with
  | ElementNode e' => ElementNode (deep g e')
  | CharacterData d => CharacterData d
  end.

(** The attribute list of the root after the removals that touch the root
    alone. *)
Definition rootAttrs (options : SvgOptions) (a : list (jsstring * jsstring))
  : list (jsstring * jsstring) :=
  let a := if removeXmlns options then Dom.removeFirst (lit "xmlns") a else a in
  let a := if removeWidth options then Dom.removeFirst (lit "width") a else a in
  if removeHeight options then Dom.removeFirst (lit "height") a else a.

(** The induction principle of the document tree: a property of elements
    that holds of an element whenever it holds of its child elements. *)
Section ElementInduction.
Variable P : Element -> Prop.
Hypothesis step :
  forall t a cs,
    Forall (fun c => match c with ElementNode e => P e | CharacterData _ => True end) cs ->
    P (mkElement t a cs).

Fixpoint Element_tree_ind (e : Element) : P e :=
  match e with
  | mkElement t a cs =>
      step t a cs
           ((fix nodes (l : list Node)
             : Forall (fun c => match c with
                                | ElementNode e => P e
                                | CharacterData _ => True
                                end) l :=
               match l with
               | [] => Forall_nil _
               | c :: r =>
                   Forall_cons c
                     (match c return match c with
                                     | ElementNode e => P e
                                     | CharacterData _ => True
                                     end with
                      | ElementNode e' => Element_tree_ind e'
                      | CharacterData _ => I
                      end) (nodes r)
               end) cs)
  end.
End ElementInduction.

(** A text that does not start with a decimal digit. *)
Definition startsNoDigit (rest : jsstring) : Prop :=
  match rest with
  | c :: _ => RegExp.isDigit c = false
  | [] => True
  end.

(** The attribute text of the tag without its first fill and its first
    stroke attribute, as the source computes it. *)
Definition strippedAttributes (attributes : jsstring) : jsstring :=
  RegExp.replace (RegExp.replace attributes App.fillRegex []) App.strokeRegex [].

(** The references [querySelectorAll] gives for a list of children, the
    first of which has index [i]. *)
Fixpoint refsFrom (i : nat) (cs : list Node) : list Dom.NodeRef :=
  match cs with
  | [] => []
  | ElementNode e' :: r => ([i] :: map (cons i) (Dom.querySelectorAll e')) ++ refsFrom (S i) r
  | CharacterData _ :: r => refsFrom (S i) r
  end.

(** A change of the attribute list of an element alone. *)
Definition onAttrs (g : list (jsstring * jsstring) -> list (jsstring * jsstring))
           (e : Element) : Element :=
  match e with mkElement t a cs => mkElement t (g a) cs end.

(** The elements under a child node, the node included. *)
Definition descend (c : Node) : list Element :=
  match c with
  | ElementNode e' => Dom.inclusiveDescendants e'
  | CharacterData _ => []
  end.

(** A text of white space alone. *)
Definition blank (s : jsstring) : Prop := Forall (fun c => Str.isWhiteSpace c = true) s.


(** An octet, and a code point that is not a surrogate. *)
Definition octet (b : N) : Prop := b < 256.

Definition scalar (cp : N) : Prop := cp < 55296 \/ (57343 < cp /\ cp < 1114112).

(** What [encodeURIComponent] writes for a code point. *)
Definition escape (cp : N) : jsstring :=
  if URI.isUnescaped cp then [cp] else URI.escapeCodePoint cp.


(** ** The component: state, handlers, effects and view *)

(** More of the Number operations the component applies. *)
Module NumOps.
(** [a === b]: NaN equals nothing, the two zeros are equal. *)
Definition strictEq (a b : Number) : bool :=
  match a, b with
  | Num x, Num y => (x =? y)%Z
  | Num x, NegZero | NegZero, Num x => (x =? 0)%Z
  | NegZero, NegZero | Infinity, Infinity | NegInfinity, NegInfinity => true
  | _, _ => false
  end.

(** [Object.is(a, b)], by which React compares a state and a dependency
    with its former value: NaN is NaN, the two zeros differ. *)
Definition sameValue (a b : Number) : bool :=
  match a, b with
  | Num x, Num y => (x =? y)%Z
  | NaN, NaN | NegZero, NegZero | Infinity, Infinity | NegInfinity, NegInfinity => true
  | _, _ => false
  end.

(** [Math.max(a, b)]: NaN when an argument is; the positive zero is above
    the negative one. *)
Definition max (a b : Number) : Number :=
  match a, b with
  | NaN, _ | _, NaN => NaN
  | Infinity, _ | _, Infinity => Infinity
  | NegInfinity, y => y
  | x, NegInfinity => x
  | NegZero, NegZero => NegZero
  | NegZero, Num y => if (y <? 0)%Z then NegZero else Num y
  | Num x, NegZero => if (x <? 0)%Z then NegZero else Num x
  | Num x, Num y => Num (Z.max x y)
  end.

(** [a + b]: the exact sum, rounded to a Number. *)
Definition add (a b : Number) : Number :=
  match a, b with
  | NaN, _ | _, NaN => NaN
  | Infinity, NegInfinity | NegInfinity, Infinity => NaN
  | Infinity, _ | _, Infinity => Infinity
  | NegInfinity, _ | _, NegInfinity => NegInfinity
  | NegZero, y => y
  | x, NegZero => x
  | Num x, Num y => Num.fromInteger (x + y)
  end.

(** The decimal digits of a natural number, most significant first. *)
Fixpoint decimalDigits (fuel : nat) (n : N) (acc : jsstring) : jsstring :=
  match fuel with
  | O => acc
  | S fuel' =>
      let acc' := (48 + n mod 10) :: acc in
      if n / 10 =? 0 then acc' else decimalDigits fuel' (n / 10) acc'
  end.

Definition toDecimal (n : N) : jsstring :=
  decimalDigits (S (N.to_nat (N.log2 n))) n [].

(** The decimal [v] reads back as the double [x]. *)
Definition readsAs (v x : Z) : bool :=
  match Num.fromInteger v with
  | Num y => (y =? x)%Z
  | _ => false
  end.

(** The shortest decimal that reads back as the double [x] of [n] digits,
    as the integer it denotes: with [k] significant digits, [k] counting
    up, it is the multiple of 10^(n-k) just below [x] or the one just
    above; of two that read back as [x] the nearer one, and of two as
    near the one whose last significant digit is even. *)
Fixpoint shortest (fuel : nat) (k x n : Z) : Z :=
  match fuel with
  | O => x
  | S fuel' =>
      if (n <? k)%Z then x
      else
        let p := (10 ^ (n - k))%Z in
        let f := (x / p * p)%Z in
        let c := (f + p)%Z in
        match readsAs f x, readsAs c x with
        | true, true =>
            if (x - f <? c - x)%Z then f
            else if (c - x <? x - f)%Z then c
            else if Z.even (x / p) then f else c
        | true, false => f
        | false, true => c
        | false, false => shortest fuel' (k + 1)%Z x n
        end
  end.

(** A positive integer without its final zeros. *)
Fixpoint dropZeros (fuel : nat) (v : Z) : Z :=
  match fuel with
  | O => v
  | S fuel' => if (v mod 10 =? 0)%Z then dropZeros fuel' (v / 10)%Z else v
  end.

Definition digitCount (v : Z) : Z := Z.of_nat (List.length (toDecimal (Z.to_N v))).

(** [Number::toString(x)] in radix 10 (ECMA-262, 6.1.6.1.20) for the
    double of a positive integer [x]. The digits are the fewest that read
    back as [x]: up to 2^53 every integer is a double and no other decimal
    reads back as it, so they are the digits of [x]; above, 17 digits
    always do. A number of at most 21 digits is written out, with zeros
    after the significant digits; a longer one with an exponent. *)
Definition positiveToString (x : Z) : jsstring :=
  let v := if (x <=? 2 ^ 53)%Z then x else shortest 17 1%Z x (digitCount x) in
  let n := digitCount v in
  if (n <=? 21)%Z then toDecimal (Z.to_N v)
  else
    match toDecimal (Z.to_N (dropZeros (Z.to_nat n) v)) with
    | [] => []
    | [d] => d :: lit "e+" ++ toDecimal (Z.to_N (n - 1))
    | d :: ds => d :: 46 :: ds ++ lit "e+" ++ toDecimal (Z.to_N (n - 1))
    end.

(** The text of a Number in a template literal or as a child of an
    element. *)
Definition toString (x : Number) : jsstring :=
  match x with
  | NaN => lit "NaN"
  | NegZero => lit "0"
  | Infinity => lit "Infinity"
  | NegInfinity => lit "-Infinity"
  | Num z => if (z =? 0)%Z then lit "0"
             else if (z <? 0)%Z then 45 :: positiveToString (- z)
             else positiveToString z
  end.
End NumOps.

(** [Theme] of [src/types.ts]. *)
Inductive Theme := light | dark | system.

Definition themeEq (a b : Theme) : bool :=
  match a, b with
  | light, light | dark, dark | system, system => true
  | _, _ => false
  end.

Inductive CopyStatus := idle | copied.

(** The state of [App]: one field for each [useState]. *)
Record AppState := {
  inputSvg : jsstring;
  options : SvgOptions;
  theme : Theme;
  isSettingsOpen : bool;
  copyStatus : CopyStatus;
  singlePreviewSize : Number
}.

(** The initial values of the [useState] calls. *)
Definition initialState : AppState := {|
  inputSvg := defaultSvg;
  options := defaultOptions;
  theme := system;
  isSettingsOpen := false;
  copyStatus := idle;
  singlePreviewSize := Num 24
|}.

(** What the user and the environment do to the component. *)
Inductive Action :=
| ChangeInput (value : jsstring)
| ClickRemoveClasses
| ClickRemoveWidth
| ClickRemoveHeight
| ClickRemoveXmlns
| ClickApplyPreviewColor
| ChangeSizes (value : jsstring)
| ChangeColor (value : jsstring)
| ClickTheme (t : Theme)
| ClickSettings
| CloseSettings
| ChangeSlider (value : jsstring)
| CopyDone
| CopyTimeout.

Definition updateOptions (f : SvgOptions -> SvgOptions) (st : AppState) : AppState :=
  {| inputSvg := inputSvg st; options := f (options st); theme := theme st;
     isSettingsOpen := isSettingsOpen st; copyStatus := copyStatus st;
     singlePreviewSize := singlePreviewSize st |}.

Definition setSinglePreviewSize (n : Number) (st : AppState) : AppState :=
  {| inputSvg := inputSvg st; options := options st; theme := theme st;
     isSettingsOpen := isSettingsOpen st; copyStatus := copyStatus st;
     singlePreviewSize := n |}.

(** The state updates of the event handlers. A switch hands its handler
    the negation of the flag it shows ([onChange(!checked)]); the handlers
    of [SettingsPopover] copy the options and set one field. *)
Definition handle (st : AppState) (a : Action) : AppState :=
  match a with
  | ChangeInput value =>
      {| inputSvg := value; options := options st; theme := theme st;
         isSettingsOpen := isSettingsOpen st; copyStatus := copyStatus st;
         singlePreviewSize := singlePreviewSize st |}
  | ClickRemoveClasses =>
      updateOptions (fun o => Build_SvgOptions (negb (removeClasses o)) (removeWidth o)
                                (removeHeight o) (removeXmlns o) (previewColor o)
                                (applyPreviewColor o) (outputSizes o)) st
  | ClickRemoveWidth =>
      updateOptions (fun o => Build_SvgOptions (removeClasses o) (negb (removeWidth o))
                                (removeHeight o) (removeXmlns o) (previewColor o)
                                (applyPreviewColor o) (outputSizes o)) st
  | ClickRemoveHeight =>
      updateOptions (fun o => Build_SvgOptions (removeClasses o) (removeWidth o)
                                (negb (removeHeight o)) (removeXmlns o) (previewColor o)
                                (applyPreviewColor o) (outputSizes o)) st
  | ClickRemoveXmlns =>
      updateOptions (fun o => Build_SvgOptions (removeClasses o) (removeWidth o)
                                (removeHeight o) (negb (removeXmlns o)) (previewColor o)
                                (applyPreviewColor o) (outputSizes o)) st
  | ClickApplyPreviewColor =>
      updateOptions (fun o => Build_SvgOptions (removeClasses o) (removeWidth o)
                                (removeHeight o) (removeXmlns o) (previewColor o)
                                (negb (applyPreviewColor o)) (outputSizes o)) st
  | ChangeSizes value =>
      updateOptions (fun o => Build_SvgOptions (removeClasses o) (removeWidth o)
                                (removeHeight o) (removeXmlns o) (previewColor o)
                                (applyPreviewColor o) value) st
  | ChangeColor value =>
      updateOptions (fun o => Build_SvgOptions (removeClasses o) (removeWidth o)
                                (removeHeight o) (removeXmlns o) value
                                (applyPreviewColor o) (outputSizes o)) st
  | ClickTheme t =>
      {| inputSvg := inputSvg st; options := options st; theme := t;
         isSettingsOpen := isSettingsOpen st; copyStatus := copyStatus st;
         singlePreviewSize := singlePreviewSize st |}
  | ClickSettings =>
      {| inputSvg := inputSvg st; options := options st; theme := theme st;
         isSettingsOpen := negb (isSettingsOpen st); copyStatus := copyStatus st;
         singlePreviewSize := singlePreviewSize st |}
  | CloseSettings =>
      {| inputSvg := inputSvg st; options := options st; theme := theme st;
         isSettingsOpen := false; copyStatus := copyStatus st;
         singlePreviewSize := singlePreviewSize st |}
  | ChangeSlider value => setSinglePreviewSize (Num.parseInt value 10) st
  | CopyDone =>
      {| inputSvg := inputSvg st; options := options st; theme := theme st;
         isSettingsOpen := isSettingsOpen st; copyStatus := copied;
         singlePreviewSize := singlePreviewSize st |}
  | CopyTimeout =>
      {| inputSvg := inputSvg st; options := options st; theme := theme st;
         isSettingsOpen := isSettingsOpen st; copyStatus := idle;
         singlePreviewSize := singlePreviewSize st |}
  end.

(** The effect that follows [parsedSizes]: the state it leaves. *)
Definition sizeEffect (st : AppState) : AppState :=
  match App.parsedSizes (outputSizes (options st)) with
  | [n] => if negb (NumOps.strictEq (singlePreviewSize st) n)
           then setSinglePreviewSize n st else st
  | _ => st
  end.

(** The dependencies of that effect changed between two renders:
    [parsedSizes] is memoized on [options.outputSizes]. *)
Definition sizeDepsChanged (before after : AppState) : bool :=
  negb (jseqb (outputSizes (options before)) (outputSizes (options after)))
  || negb (NumOps.sameValue (singlePreviewSize before) (singlePreviewSize after)).

(** An effect runs after a render in which a dependency changed; the
    state it sets causes one more render, after which it runs again. *)
Definition settle (before after : AppState) : AppState :=
  if sizeDepsChanged before after then
    let after' := sizeEffect after in
    if sizeDepsChanged after after' then sizeEffect after' else after'
  else after.

(** The state after the first render and its effects, and after an
    action. *)
Definition mounted : AppState := sizeEffect initialState.

Definition step (st : AppState) (a : Action) : AppState := settle st (handle st a).

Inductive reachable : AppState -> Prop :=
| reachable_mounted : reachable mounted
| reachable_step st a : reachable st -> reachable (step st a).

(** *** The theme and the root of the page *)

(** [classList.toggle(token, force)] on an ordered set of tokens. *)
Definition toggle (token : jsstring) (force : bool) (classList : list jsstring)
  : list jsstring :=
  if force then
    if existsb (jseqb token) classList then classList else classList ++ [token]
  else filter (fun t => negb (jseqb t token)) classList.

(** What the theme effect reads and writes outside the component: the
    answer of the media query, the class list of the root of the page, and
    the listeners of the media query, each with the theme it closed over. *)
Record Page := {
  prefersDark : bool;
  classList : list jsstring;
  listeners : list Theme
}.

Definition isDark (t : Theme) (matches : bool) : bool :=
  themeEq t dark || (themeEq t system && matches).

Fixpoint removeListener (t : Theme) (l : list Theme) : list Theme :=
  match l with
  | [] => []
  | x :: r => if themeEq x t then r else x :: removeListener t r
  end.

(** The body of the theme effect for a theme, and its cleanup. *)
Definition themeEffect (t : Theme) (p : Page) : Page :=
  {| prefersDark := prefersDark p;
     classList := toggle (lit "dark") (isDark t (prefersDark p)) (classList p);
     listeners := listeners p ++ [t] |}.

Definition themeCleanup (t : Theme) (p : Page) : Page :=
  {| prefersDark := prefersDark p;
     classList := classList p;
     listeners := removeListener t (listeners p) |}.

(** [handleChange], as registered under a theme. *)
Definition handleChange (t : Theme) (p : Page) : Page :=
  if themeEq t system
  then {| prefersDark := prefersDark p;
          classList := toggle (lit "dark") (prefersDark p) (classList p);
          listeners := listeners p |}
  else p.

(** The media query changes its answer and calls its listeners. *)
Definition mediaChange (matches : bool) (p : Page) : Page :=
  fold_left (fun q t => handleChange t q) (listeners p)
            {| prefersDark := matches; classList := classList p; listeners := listeners p |}.

(** The component together with the page. A click on the theme that is
    already set changes no state, so no effect runs. *)
Inductive Event_ :=
| Act (a : Action)
| MediaChanged (matches : bool).

Definition pageStep (st : AppState) (p : Page) (e : Event_) : AppState * Page :=
  match e with
  | Act a =>
      let st' := step st a in
      if themeEq (theme st) (theme st') then (st', p)
      else (st', themeEffect (theme st') (themeCleanup (theme st) p))
  | MediaChanged matches => (st, mediaChange matches p)
  end.

(** A page on which the component was mounted. *)
Definition pageMounted (p : Page) : AppState * Page :=
  (mounted, themeEffect (theme mounted) p).

Inductive pageReachable (p0 : Page) : AppState * Page -> Prop :=
| pageReachable_mounted : pageReachable p0 (pageMounted p0)
| pageReachable_step st p e :
    pageReachable p0 (st, p) -> pageReachable p0 (pageStep st p e).

(** *** The view *)

(** One preview image in its frame. *)
Record Preview := {
  frame : Number;
  src : jsstring;
  alt : jsstring;
  size : Number;
  caption : jsstring
}.

Inductive PreviewPane :=
| Previews (items : list Preview)
| Adjustable (item : Preview) (sliderValue : Number)
| SizesMessage
| InvalidMessage.

(** The content of the preview panel. *)
Definition previewPane (svgPreviewUrl : jsstring) (parsedSizes : list Number)
           (singlePreviewSize : Number) : PreviewPane :=
  if Str.truthy svgPreviewUrl then
    if (1 <? List.length parsedSizes)%nat then
      Previews (map (fun size =>
                       {| frame := NumOps.add (NumOps.max size (Num 32)) (Num 16);
                          src := svgPreviewUrl;
                          alt := lit "Preview at " ++ NumOps.toString size ++ lit "px";
                          size := size;
                          caption := NumOps.toString size ++ lit "px" |}) parsedSizes)
    else if (List.length parsedSizes =? 1)%nat then
      Adjustable
        {| frame := NumOps.add (NumOps.max singlePreviewSize (Num 64)) (Num 32);
           src := svgPreviewUrl;
           alt := lit "Preview at " ++ NumOps.toString singlePreviewSize ++ lit "px";
           size := singlePreviewSize;
           caption := NumOps.toString singlePreviewSize ++ lit "px" |}
        singlePreviewSize
    else SizesMessage
  else InvalidMessage.

(** What a render of [App] derives from its state: the text of the output
    panel, which is also the text that is copied and saved, and the
    preview panel. *)
Record View := {
  outputText : jsstring;
  pane : PreviewPane
}.

Section Render.
Context {host : Host}.
Local Open Scope js_scope.

Definition render (st : AppState) : M View :=
  baseOptimizedSvg <- optimizeSvgBase (inputSvg st) (options st) ;;
  let previewRenderSvg :=
    App.previewRenderSvg baseOptimizedSvg (previewColor (options st)) in
  let outputSvg :=
    App.outputSvg (applyPreviewColor (options st)) previewRenderSvg baseOptimizedSvg in
  svgPreviewUrl <- App.svgPreviewUrl previewRenderSvg ;;
  Monad.ret {| outputText := outputSvg;
               pane := previewPane svgPreviewUrl
                                   (App.parsedSizes (outputSizes (options st)))
                                   (singlePreviewSize st) |}.
End Render.

(** *** Notions of the statements about the component *)

(** The attributes whose names are none of the given ones. *)
Definition without (names : list jsstring) (attrs : list (jsstring * jsstring))
  : list (jsstring * jsstring) :=
  filter (fun a => negb (existsb (jseqb (fst a)) names)) attrs.

(** The names the options remove from the root, and from its descendants. *)
Definition rootNames (o : SvgOptions) : list jsstring :=
  (if removeXmlns o then [lit "xmlns"] else [])
  ++ (if removeWidth o then [lit "width"] else [])
  ++ (if removeHeight o then [lit "height"] else [])
  ++ (if removeClasses o then [lit "class"] else []).

Definition descendantNames (o : SvgOptions) : list jsstring :=
  if removeClasses o then [lit "class"] else [].

(** The tree without the attributes of those names: everything else, the
    order of the remaining attributes included, is kept. *)
Definition pruned (o : SvgOptions) (e : Element) : Element :=
  match e with
  | mkElement t a cs =>
      mkElement t (without (rootNames o) a) (map (deepNode (without (descendantNames o))) cs)
  end.

(** Options with every removal of either. *)
Definition bothOptions (o1 o2 : SvgOptions) : SvgOptions :=
  Build_SvgOptions (removeClasses o1 || removeClasses o2) (removeWidth o1 || removeWidth o2)
                   (removeHeight o1 || removeHeight o2) (removeXmlns o1 || removeXmlns o2)
                   (previewColor o2) (applyPreviewColor o2) (outputSizes o2).

(** A code unit of base64 text: of the alphabet, or the padding sign. *)
Definition isBase64Char (c : char16) : bool :=
  match Base64.value c with
  | Some _ => true
  | None => c =? 61
  end.

(** The value of a run of decimal digits read after the value [acc]. *)
Definition readDigits (acc : Z) (ds : jsstring) : Z :=
  fold_left (fun a c => 10 * a + (Z.of_N c - 48))%Z ds acc.

(** * Properties *)

Lemma jseqb_eq a b : jseqb a b = true <-> a = b.
Proof.
  revert b; induction a as [|x a IH]; intros [|y b]; simpl; try (split; congruence).
  rewrite andb_true_iff, N.eqb_eq, IH. split; [intros [-> ->]; reflexivity|].
  intros H; injection H; auto.
Qed.

Lemma jseqb_refl a : jseqb a a = true.
Proof. apply jseqb_eq; reflexivity. Qed.

Lemma jseqb_neq a b : jseqb a b = false <-> a <> b.
Proof.
  split.
  - intros H E. apply jseqb_eq in E. congruence.
  - intros H. destruct (jseqb a b) eqn:E; [apply jseqb_eq in E; contradiction|reflexivity].
Qed.

(** ** Splitting and joining *)

Module StrFacts.
Import Str.
Local Open Scope N_scope.

Lemma split_not_nil sep s : split sep s <> [].
Proof.
  destruct s as [|c r]; simpl; [discriminate|].
  destruct (c =? sep); [discriminate|]. destruct (split sep r); discriminate.
Qed.

Lemma join_cons sep t ts : ts <> [] -> join sep (t :: ts) = t ++ sep :: join sep ts.
Proof. destruct ts; [congruence|reflexivity]. Qed.

Lemma join_split sep s : join sep (split sep s) = s.
Proof.
  induction s as [|c r IH]; simpl; [reflexivity|].
  destruct (c =? sep) eqn:E.
  - apply N.eqb_eq in E; subst c.
    rewrite join_cons by apply split_not_nil. simpl. now rewrite IH.
  - pose proof (split_not_nil sep r) as NE.
    destruct (split sep r) as [|t ts]; [congruence|].
    destruct ts as [|t' ts]; simpl in *; now rewrite <- IH.
Qed.

Lemma split_free sep s : Forall (fun t => ~ In sep t) (split sep s).
Proof.
  induction s as [|c r IH]; simpl.
  - constructor; [intros []|constructor].
  - destruct (c =? sep) eqn:E.
    + constructor; [intros []|exact IH].
    + apply N.eqb_neq in E.
      destruct (split sep r) as [|t ts]; [repeat constructor; intros [H|[]]; congruence|].
      inversion IH; subst. constructor; [|assumption].
      intros [H|H]; [congruence|contradiction].
Qed.

Lemma split_token sep t : ~ In sep t -> split sep t = [t].
Proof.
  induction t as [|c r IH]; simpl; intros H; [reflexivity|].
  destruct (c =? sep) eqn:E; [apply N.eqb_eq in E; subst; tauto|].
  rewrite IH by tauto. reflexivity.
Qed.

Lemma split_app sep t s :
  ~ In sep t -> split sep (t ++ sep :: s) = t :: split sep s.
Proof.
  induction t as [|c r IH]; simpl; intros H.
  - now rewrite N.eqb_refl.
  - destruct (c =? sep) eqn:E; [apply N.eqb_eq in E; subst; tauto|].
    rewrite IH by tauto. reflexivity.
Qed.

Lemma split_join sep ts :
  ts <> [] -> Forall (fun t => ~ In sep t) ts -> split sep (join sep ts) = ts.
Proof.
  induction ts as [|t ts IH]; intros NE F; [congruence|].
  inversion F as [|? ? Ht Fts]; subst.
  destruct ts as [|t' ts].
  - simpl. now apply split_token.
  - rewrite join_cons by discriminate. rewrite split_app by assumption.
    f_equal. apply IH; [discriminate|assumption].
Qed.

Lemma trimStart_nonspace c s : isWhiteSpace c = false -> trimStart (c :: s) = c :: s.
Proof. intros H; simpl; now rewrite H. Qed.
End StrFacts.

(** ** The size list *)

Module SizeFacts.
Import Str Num.
Local Open Scope N_scope.

Lemma parsedSizes_tokens (tokens : list jsstring) :
  filter (fun n => negb (isNaN n) && gt0 n)
         (map (fun s => parseInt (trim s) 10) tokens)
  = flat_map sizeOfToken tokens.
Proof.
  induction tokens as [|t ts IH]; simpl; [reflexivity|].
  unfold sizeOfToken at 1.
  destruct (parseInt (trim t) 10) as [|z| | |]; simpl; try exact IH.
  - destruct (0 <? z)%Z; simpl; now rewrite IH.
  - now rewrite IH.
Qed.

Lemma flat_map_nil {A B} (f : A -> list B) (l : list A) :
  Forall (fun x => f x = []) l -> flat_map f l = [].
Proof.
  induction 1 as [|x l Hx F IH]; simpl; [reflexivity|]. now rewrite Hx, IH.
Qed.

Lemma sizeOfToken_positive t n :
  In n (sizeOfToken t) -> (exists z, n = Num z /\ (0 < z)%Z) \/ n = Infinity.
Proof.
  unfold sizeOfToken. destruct (parseInt (trim t) 10) as [|z| | |]; try (now intros []).
  - destruct (0 <? z)%Z eqn:E; [|intros []].
    intros [<-|[]]. left. exists z. split; [reflexivity|now apply Z.ltb_lt].
  - intros [<-|[]]. now right.
Qed.

Lemma sizeOfToken_gt0 t n : In n (sizeOfToken t) -> gt0 n = true.
Proof.
  intros H. destruct (sizeOfToken_positive t n H) as [[z [-> P]]| ->]; [|reflexivity].
  now apply Z.ltb_lt.
Qed.

(** A natural number of at most 53 bits is a double. *)
Lemma nearest_exact a : (0 <= a <= 2 ^ 53)%Z -> nearest a = a.
Proof.
  intros [L U]. unfold nearest.
  destruct (Z.eq_dec a (2 ^ 53)) as [->|N]; [reflexivity|].
  destruct (Z.eq_dec a 0) as [->|P]; [reflexivity|].
  assert (Z.log2 a < 53)%Z by (apply Z.log2_lt_pow2; lia).
  destruct (Z.leb_spec (Z.log2 a - 52) 0); [reflexivity|lia].
Qed.

Lemma nearest_positive a : (0 < a)%Z -> (0 < nearest a)%Z.
Proof.
  intros P. unfold nearest.
  destruct (Z.leb_spec (Z.log2 a - 52) 0) as [|E]; [exact P|].
  pose proof (Z.log2_spec a P) as [L _].
  assert (B : (0 < 2 ^ (Z.log2 a - 52) <= a)%Z).
  { split; [apply Z.pow_pos_nonneg; lia|].
    apply Z.le_trans with (2 ^ Z.log2 a)%Z; [|exact L].
    apply Z.pow_le_mono_r; lia. }
  pose proof (Z.div_str_pos _ _ B) as Q.
  destruct ((2 ^ (Z.log2 a - 52 - 1) <? a mod 2 ^ (Z.log2 a - 52))%Z
            || ((a mod 2 ^ (Z.log2 a - 52) =? 2 ^ (Z.log2 a - 52 - 1))%Z
                && Z.odd (a / 2 ^ (Z.log2 a - 52))));
    apply Z.mul_pos_pos; lia.
Qed.

Lemma fromInteger_exact z : (Z.abs z <= 2 ^ 53)%Z -> fromInteger z = Num z.
Proof.
  intros B. unfold fromInteger. rewrite nearest_exact by lia.
  destruct (Z.leb_spec (2 ^ 1024) (Z.abs z)) as [H|_].
  - exfalso. assert (2 ^ 53 < 2 ^ 1024)%Z by reflexivity. lia.
  - f_equal. rewrite Z.mul_comm. apply Z.abs_sgn.
Qed.

Lemma fromInteger_positive z :
  (0 < z)%Z -> (exists v, fromInteger z = Num v /\ (0 < v)%Z) \/ fromInteger z = Infinity.
Proof.
  intros P. unfold fromInteger. rewrite (Z.abs_eq z) by lia.
  pose proof (nearest_positive z P) as Q.
  destruct (2 ^ 1024 <=? nearest z)%Z.
  - right. now replace (z <? 0)%Z with false by lia.
  - left. exists (nearest z). split; [|exact Q].
    now rewrite (Z.sgn_pos z P), Z.mul_1_l.
Qed.

Lemma digit_not_space c : RegExp.isDigit c = true -> isWhiteSpace c = false.
Proof.
  unfold RegExp.isDigit, isWhiteSpace. intros H.
  apply andb_true_iff in H. destruct H as [H1 H2].
  apply N.leb_le in H1. apply N.leb_le in H2.
  repeat match goal with
         | |- context [?a <=? ?b] => destruct (N.leb_spec a b); try lia
         | |- context [?a =? ?b] => destruct (N.eqb_spec a b); try lia
         end; reflexivity.
Qed.

Lemma digit_radix10 c :
  RegExp.isDigit c = true -> radixDigit 10 c = Some (c - 48).
Proof.
  unfold RegExp.isDigit, radixDigit, digitValue. intros H. rewrite H.
  apply andb_true_iff in H. destruct H as [H1 H2].
  apply N.leb_le in H1. apply N.leb_le in H2.
  destruct (N.ltb_spec (c - 48) 10); [reflexivity|lia].
Qed.

Lemma nondigit_radix10 c :
  RegExp.isDigit c = false -> radixDigit 10 c = None.
Proof.
  unfold RegExp.isDigit, radixDigit, digitValue. intros H. rewrite H.
  destruct ((97 <=? c) && (c <=? 122)) eqn:E1.
  - apply andb_true_iff in E1. destruct E1 as [H1 H2].
    apply N.leb_le in H1. destruct (N.ltb_spec (c - 87) 10); [lia|reflexivity].
  - destruct ((65 <=? c) && (c <=? 90)) eqn:E2; [|reflexivity].
    apply andb_true_iff in E2. destruct E2 as [H1 H2].
    apply N.leb_le in H1. destruct (N.ltb_spec (c - 55) 10); [lia|reflexivity].
Qed.

Lemma digitsPrefix_run digits rest :
  Forall (fun c => RegExp.isDigit c = true) digits -> startsNoDigit rest ->
  digitsPrefix 10 (digits ++ rest) = map (fun c => c - 48) digits.
Proof.
  intros F R. induction F as [|c ds Hc F IH]; simpl.
  - destruct rest as [|c r]; [reflexivity|]. simpl in *.
    now rewrite (nondigit_radix10 c R).
  - now rewrite (digit_radix10 c Hc), IH.
Qed.

Lemma mathInt_decimal digits acc :
  Forall (fun c => RegExp.isDigit c = true) digits ->
  Z.of_N (fold_left (fun a d => a * 10 + d) (map (fun c => c - 48) digits) acc)
  = fold_left (fun a c => 10 * a + (Z.of_N c - 48))%Z digits (Z.of_N acc).
Proof.
  intros F. revert acc.
  induction F as [|c ds Hc F IH]; intros acc; cbn [fold_left map]; [reflexivity|].
  rewrite IH. f_equal.
  unfold RegExp.isDigit in Hc. apply andb_true_iff in Hc. destruct Hc as [H1 H2].
  apply N.leb_le in H1. lia.
Qed.

(** [parseInt] reads the leading digits of a text and ignores the rest. *)
Lemma parseInt_leading_digits digits rest :
  digits <> [] -> Forall (fun c => RegExp.isDigit c = true) digits ->
  startsNoDigit rest ->
  parseInt (digits ++ rest) 10 = fromInteger (decimalValue digits).
Proof.
  intros NE F R. unfold parseInt.
  destruct digits as [|c ds]; [congruence|].
  pose proof (Forall_inv F) as Hc.
  change ((c :: ds) ++ rest) with (c :: (ds ++ rest)).
  rewrite (StrFacts.trimStart_nonspace c _ (digit_not_space c Hc)).
  assert (c <> 45 /\ c <> 43) as [N1 N2].
  { unfold RegExp.isDigit in Hc. apply andb_true_iff in Hc. destruct Hc as [H1 _].
    apply N.leb_le in H1. lia. }
  replace (match c :: ds ++ rest with 45 :: _ => (-1)%Z | _ => 1%Z end) with 1%Z.
  2:{ destruct c as [|p]; [reflexivity|].
      do 6 (destruct p as [p|p|]; try reflexivity). congruence. }
  apply N.eqb_neq in N1, N2. rewrite N1, N2. simpl orb. cbv iota beta.
  change (negb (10 =? 0) && ((10 <? 2) || (36 <? 10))) with false. cbv iota.
  change ((10 =? 0) || (10 =? 16)) with false. cbv iota.
  change (if 10 =? 0 then 10 else 10) with 10.
  change (c :: ds ++ rest) with ((c :: ds) ++ rest).
  rewrite (digitsPrefix_run _ _ F R).
  assert (V : Z.of_N (mathInt 10 (map (fun c0 : N => c0 - 48) (c :: ds)))
              = decimalValue (c :: ds)).
  { unfold mathInt. now rewrite mathInt_decimal. }
  cbn [map] in *.
  destruct (N.eqb_spec (mathInt 10 (c - 48 :: map (fun c0 : N => c0 - 48) ds)) 0) as [Z0|NZ].
  - rewrite <- V, Z0. reflexivity.
  - rewrite Z.mul_1_l, V. reflexivity.
Qed.
End SizeFacts.

(** C8: size parsing splits [outputSizes] at its commas (the tokens are the
    comma-free pieces the text is the join of, and the only such pieces),
    trims and parses each token as an integer and keeps, in the order of the
    input and with its repetitions, the strictly positive results, each the
    Number of a positive integer or, where the digits run beyond the range
    of Number, Infinity; nothing else is in the sequence, which is empty
    when no token gives a positive integer, as for the empty text. The
    three sequences of the specification are computed. *)
Theorem parsedSizes_spec :
  forall outputSizes : jsstring,
    let tokens := Str.split 44 outputSizes in
    (Str.join 44 tokens = outputSizes
     /\ Forall commaFree tokens
     /\ (forall ts, ts <> [] -> Forall commaFree ts ->
                    Str.join 44 ts = outputSizes -> ts = tokens))
    /\ App.parsedSizes outputSizes = flat_map sizeOfToken tokens
    /\ Forall (fun n => (exists z, n = Num z /\ (0 < z)%Z) \/ n = Infinity)
              (App.parsedSizes outputSizes)
    /\ (Forall (fun t => sizeOfToken t = []) tokens -> App.parsedSizes outputSizes = [])
    /\ App.parsedSizes (lit "16, 24, 32") = [Num 16; Num 24; Num 32]
    /\ App.parsedSizes (lit "0, -5, abc, 10") = [Num 10]
    /\ App.parsedSizes [] = [].
Proof.
  intros outputSizes tokens.
  assert (E : App.parsedSizes outputSizes = flat_map sizeOfToken tokens)
    by apply SizeFacts.parsedSizes_tokens.
  repeat split.
  - apply StrFacts.join_split.
  - apply StrFacts.split_free.
  - intros ts NE F J. subst tokens. rewrite <- J.
    symmetry. now apply StrFacts.split_join.
  - exact E.
  - rewrite E. apply Forall_forall. intros n Hn.
    apply in_flat_map in Hn. destruct Hn as [t [_ Hn]].
    now apply SizeFacts.sizeOfToken_positive with t.
  - intros F. rewrite E. now apply SizeFacts.flat_map_nil.
Qed.

(** C10: a token whose trimmed form is a run of decimal digits of positive
    value followed by text that does not start with a digit is not
    discarded: the parsed sequence holds the Number [parseInt] gives for
    the leading integer. Up to 2^53 = 9007199254740992 that is the integer
    itself; above, it is the double nearest to it, or Infinity. *)
Theorem parsedSizes_keeps_leading_integer :
  forall (tokens : list jsstring) (token digits rest : jsstring),
    Forall commaFree tokens ->
    In token tokens ->
    Str.trim token = digits ++ rest ->
    digits <> [] ->
    Forall (fun c => RegExp.isDigit c = true) digits ->
    startsNoDigit rest ->
    (0 < decimalValue digits)%Z ->
    In (Num.fromInteger (decimalValue digits)) (App.parsedSizes (Str.join 44 tokens))
    /\ ((decimalValue digits <= 9007199254740992)%Z ->
        In (Num (decimalValue digits)) (App.parsedSizes (Str.join 44 tokens))).
Proof.
  intros tokens token digits rest F I T NE D R P.
  assert (G : In (Num.fromInteger (decimalValue digits))
                 (App.parsedSizes (Str.join 44 tokens))).
  { unfold App.parsedSizes. rewrite SizeFacts.parsedSizes_tokens.
    rewrite StrFacts.split_join; [|intros ->; contradiction|exact F].
    apply in_flat_map. exists token. split; [assumption|].
    unfold sizeOfToken. rewrite T.
    rewrite (SizeFacts.parseInt_leading_digits _ _ NE D R).
    destruct (SizeFacts.fromInteger_positive _ P) as [[v [-> Q]]| ->]; [|now left].
    apply Z.ltb_lt in Q. rewrite Q. now left. }
  split; [exact G|].
  intros B. rewrite <- (SizeFacts.fromInteger_exact (decimalValue digits)); [exact G|].
  change (2 ^ 53)%Z with 9007199254740992%Z. lia.
Qed.

Lemma parsedSizes_keeps_leading_integer_witness :
  In (Num 16) (App.parsedSizes (lit "24, 16px ,3.9"))
  /\ In (Num 3) (App.parsedSizes (lit "24, 16px ,3.9")).
Proof.
  split.
  - refine (proj2 (parsedSizes_keeps_leading_integer
                     [lit "24"; lit " 16px "; lit "3.9"] (lit " 16px ") (lit "16") (lit "px")
                     _ _ _ _ _ _ _) _).
    + repeat constructor; unfold commaFree; simpl; intuition discriminate.
    + simpl; auto.
    + reflexivity.
    + discriminate.
    + repeat constructor.
    + reflexivity.
    + reflexivity.
    + apply Z.leb_le. reflexivity.
  - refine (proj2 (parsedSizes_keeps_leading_integer
                     [lit "24"; lit " 16px "; lit "3.9"] (lit "3.9") (lit "3") (lit ".9")
                     _ _ _ _ _ _ _) _).
    + repeat constructor; unfold commaFree; simpl; intuition discriminate.
    + simpl; auto.
    + reflexivity.
    + discriminate.
    + repeat constructor.
    + reflexivity.
    + reflexivity.
    + apply Z.leb_le. reflexivity.
Defined.

(** C10 as it is stated fails for a leading integer that is no Number:
    of the token 9007199254740993px the sequence holds 9007199254740992,
    the double nearest to its digits, and not the integer they write. *)
Lemma parsedSizes_keeps_leading_integer_not_exact :
  ~ (forall (tokens : list jsstring) (token digits rest : jsstring),
        Forall commaFree tokens ->
        In token tokens ->
        Str.trim token = digits ++ rest ->
        digits <> [] ->
        Forall (fun c => RegExp.isDigit c = true) digits ->
        startsNoDigit rest ->
        (0 < decimalValue digits)%Z ->
        In (Num (decimalValue digits)) (App.parsedSizes (Str.join 44 tokens))).
Proof.
  intros H.
  specialize (H [lit "9007199254740993px"] (lit "9007199254740993px")
                (lit "9007199254740993") (lit "px")).
  assert (E : App.parsedSizes (Str.join 44 [lit "9007199254740993px"])
              = [Num 9007199254740992]) by (vm_compute; reflexivity).
  rewrite E in H.
  assert (V : decimalValue (lit "9007199254740993") = 9007199254740993%Z)
    by (vm_compute; reflexivity).
  rewrite V in H.
  destruct H as [H|[]].
  - repeat constructor; unfold commaFree; simpl; intuition discriminate.
  - simpl; auto.
  - reflexivity.
  - discriminate.
  - repeat constructor.
  - reflexivity.
  - reflexivity.
  - discriminate H.
Qed.

(** ** The regular expressions *)

Module RegExpFacts.
Import RegExp.

Lemma stripPrefix_app p s : stripPrefix p (p ++ s) = Some s.
Proof. induction p as [|x p IH]; simpl; [reflexivity|]. now rewrite N.eqb_refl. Qed.

Lemma stripPrefix_sound p s r : stripPrefix p s = Some r -> s = p ++ r.
Proof.
  revert s; induction p as [|x p IH]; intros s H; simpl in *; [congruence|].
  destruct s as [|y s]; [discriminate|].
  destruct (x =? y) eqn:E; [|discriminate].
  apply N.eqb_eq in E; subst y. now rewrite (IH _ H).
Qed.

Lemma upTo_sound stop s b a :
  upTo stop s = Some (b, a) -> s = b ++ stop :: a /\ ~ In stop b.
Proof.
  revert b; induction s as [|c r IH]; intros b H; simpl in H; [discriminate|].
  destruct (c =? stop) eqn:E.
  - apply N.eqb_eq in E; subst c. injection H as <- <-. split; [reflexivity|intros []].
  - destruct (upTo stop r) as [[b' a']|]; [|discriminate].
    injection H as <- <-. destruct (IH b' eq_refl) as [-> NI].
    split; [reflexivity|]. apply N.eqb_neq in E. intros [H|H]; [congruence|contradiction].
Qed.

Lemma upTo_complete stop b a : exists b' a', upTo stop (b ++ stop :: a) = Some (b', a').
Proof.
  induction b as [|c b IH]; simpl.
  - rewrite N.eqb_refl. eauto.
  - destruct (c =? stop); [eauto|]. destruct IH as [b' [a' ->]]. eauto.
Qed.

(** A match is an occurrence of the literal, a run free of the closing
    code unit, and the closing code unit. *)
Lemma exec_sound re s m :
  exec re s = Some m ->
  s = before m ++ literal re ++ run m ++ closing re :: after m
  /\ ~ In (closing re) (run m).
Proof.
  revert m; induction s as [|c r IH]; intros m H; simpl in H.
  - destruct (matchHere re []) as [[b a]|] eqn:E; [|discriminate].
    injection H as <-. simpl. unfold matchHere in E.
    destruct (stripPrefix (literal re) []) as [r|] eqn:P; [|discriminate].
    apply stripPrefix_sound in P. apply upTo_sound in E. destruct E as [-> NI].
    split; assumption.
  - destruct (matchHere re (c :: r)) as [[b a]|] eqn:E.
    + injection H as <-. simpl. unfold matchHere in E.
      destruct (stripPrefix (literal re) (c :: r)) as [r'|] eqn:P; [|discriminate].
      apply stripPrefix_sound in P. apply upTo_sound in E. destruct E as [-> NI].
      split; assumption.
    + destruct (exec re r) as [m'|]; [|discriminate].
      injection H as <-. destruct (IH m' eq_refl) as [E' NI]. simpl.
      split; [now rewrite E' at 1|assumption].
Qed.

(** Without a match, the text holds no occurrence of the literal that a
    closing code unit follows. *)
Lemma exec_none re s :
  exec re s = None <->
  (forall pre body post, s <> pre ++ literal re ++ body ++ closing re :: post).
Proof.
  split.
  - induction s as [|c r IH]; intros H pre body post E.
    + simpl in H. destruct (matchHere re []) as [[b a]|] eqn:M; [discriminate|].
      destruct pre; [|discriminate]. simpl in E. unfold matchHere in M.
      rewrite E, stripPrefix_app in M.
      destruct (upTo_complete (closing re) body post) as [b' [a' U]]. congruence.
    + simpl in H. destruct (matchHere re (c :: r)) as [[b a]|] eqn:M; [discriminate|].
      destruct pre as [|p pre].
      * simpl in E. unfold matchHere in M. rewrite E, stripPrefix_app in M.
        destruct (upTo_complete (closing re) body post) as [b' [a' U]]. congruence.
      * destruct (exec re r) as [m|] eqn:X; [discriminate|].
        injection E as -> E. exact (IH eq_refl pre body post E).
  - intros H. destruct (exec re s) as [m|] eqn:X; [|reflexivity].
    apply exec_sound in X. destruct X as [E _]. now apply H in E.
Qed.

(** The match is the leftmost one: no occurrence of the literal with a
    closing code unit after it starts before it. *)
Lemma exec_leftmost re s m :
  exec re s = Some m ->
  forall pre body post,
    s = pre ++ literal re ++ body ++ closing re :: post ->
    (List.length (before m) <= List.length pre)%nat.
Proof.
  revert m; induction s as [|c r IH]; intros m H pre body post E; simpl in H.
  - destruct (matchHere re []) as [[b a]|]; [|discriminate].
    injection H as <-. simpl. apply Nat.le_0_l.
  - destruct (matchHere re (c :: r)) as [[b a]|] eqn:M.
    + injection H as <-. simpl. apply Nat.le_0_l.
    + destruct (exec re r) as [m'|] eqn:X; [|discriminate].
      injection H as <-. destruct pre as [|p pre].
      * simpl in E. unfold matchHere in M. rewrite E, stripPrefix_app in M.
        destruct (upTo_complete (closing re) body post) as [b' [a' U]]. congruence.
      * injection E as -> E. simpl. apply le_n_S. exact (IH m' eq_refl pre body post E).
Qed.

(** A replacement string without a dollar sign stands for itself. *)
Lemma getSubstitution_plain matchedText pre post caps template :
  ~ In 36 template ->
  getSubstitution matchedText pre post caps template = template.
Proof.
  induction template as [|c r IH]; intros NI; [reflexivity|].
  simpl. destruct (N.eqb_spec c 36) as [->|NE]; [simpl in NI; tauto|].
  simpl. f_equal. apply IH. simpl in NI. tauto.
Qed.

(** Replacing the first match by the empty string removes it. *)
Lemma replace_empty input re :
  replace input re [] =
  match exec re input with
  | Some m => before m ++ after m
  | None => input
  end.
Proof. unfold replace. destruct (exec re input); reflexivity. Qed.

Lemma replace_empty_subset input re c :
  In c (replace input re []) -> In c input.
Proof.
  rewrite replace_empty. destruct (exec re input) as [m|] eqn:X; [|auto].
  apply exec_sound in X. destruct X as [-> _]. intros H.
  apply in_app_or in H. apply in_or_app. destruct H as [H|H]; [now left|right].
  apply in_or_app. right. apply in_or_app. right. now right.
Qed.
End RegExpFacts.

(** ** The colorized text *)

Module ColorFacts.
Import RegExp.

Lemma strip_subset c attributes : In c (strippedAttributes attributes) -> In c attributes.
Proof.
  unfold strippedAttributes. intros H.
  now apply RegExpFacts.replace_empty_subset, RegExpFacts.replace_empty_subset in H.
Qed.

Lemma previewRenderSvg_match base color m :
  exec App.svgTagRegex base = Some m ->
  App.previewRenderSvg base color
  = before m
    ++ getSubstitution (matched App.svgTagRegex m) (before m) (after m) [run m]
         (lit "<svg" ++ strippedAttributes (run m) ++ qlit " fill='" ++ color ++ qlit "'>")
    ++ after m.
Proof.
  intros X. unfold App.previewRenderSvg.
  assert (NE : Str.truthy base = true).
  { apply RegExpFacts.exec_sound in X. destruct X as [-> _].
    destruct (before m); reflexivity. }
  rewrite NE. simpl negb. cbv iota.
  unfold match_. rewrite X. unfold replace. rewrite X. reflexivity.
Qed.

(** Where neither the tag nor the colour holds a dollar sign, only the
    first opening tag changes: its first fill and stroke attributes go and
    the fill of the preview colour is appended. *)
Lemma previewRenderSvg_plain base color m :
  exec App.svgTagRegex base = Some m ->
  ~ In 36 (run m) -> ~ In 36 color ->
  App.previewRenderSvg base color
  = before m ++ (lit "<svg" ++ strippedAttributes (run m) ++ qlit " fill='" ++ color ++ qlit "'>")
    ++ after m.
Proof.
  intros X NA NC. rewrite (previewRenderSvg_match base color m X).
  rewrite RegExpFacts.getSubstitution_plain; [reflexivity|].
  intros H. repeat (apply in_app_or in H; destruct H as [H|H]).
  - simpl in H. intuition discriminate.
  - apply strip_subset in H. contradiction.
  - simpl in H. intuition discriminate.
  - contradiction.
  - simpl in H. intuition discriminate.
Qed.
End ColorFacts.

(** C3, as the code has it: a non-empty base text that holds no opening
    tag of the root (no occurrence of the literal with a closing angle
    bracket after it) is its own colorized text. *)
Theorem previewRenderSvg_without_root_tag :
  forall base previewColor : jsstring,
    base <> [] ->
    (forall pre attributes post,
        base <> pre ++ lit "<svg" ++ attributes ++ 62 :: post) ->
    App.previewRenderSvg base previewColor = base.
Proof.
  intros base color NE H. unfold App.previewRenderSvg.
  destruct base as [|c r]; [congruence|]. simpl Str.truthy. simpl negb. cbv iota.
  unfold RegExp.match_.
  assert (X : RegExp.exec App.svgTagRegex (c :: r) = None)
    by (apply RegExpFacts.exec_none; exact H).
  now rewrite X.
Qed.

Lemma previewRenderSvg_without_root_tag_witness :
  App.previewRenderSvg (lit "<div>hello</div>") (lit "#3b82f6") = lit "<div>hello</div>".
Proof.
  apply (previewRenderSvg_without_root_tag (lit "<div>hello</div>") (lit "#3b82f6")).
  - discriminate.
  - apply (proj1 (RegExpFacts.exec_none App.svgTagRegex (lit "<div>hello</div>"))).
    reflexivity.
Defined.

(** C3 as the specification states it fails: the text hello is not empty
    and holds no opening tag of the root, and its colorized text is hello,
    not the empty string. *)
Lemma previewRenderSvg_without_root_tag_not_empty :
  ~ (forall base previewColor : jsstring,
        base <> [] ->
        (forall pre attributes post,
            base <> pre ++ lit "<svg" ++ attributes ++ 62 :: post) ->
        App.previewRenderSvg base previewColor = []).
Proof.
  intros H. specialize (H (lit "hello") (lit "#3b82f6")).
  assert (E : App.previewRenderSvg (lit "hello") (lit "#3b82f6") = lit "hello") by reflexivity.
  rewrite E in H. discriminate H.
  - discriminate.
  - apply (proj1 (RegExpFacts.exec_none App.svgTagRegex (lit "hello"))). reflexivity.
Qed.

(** X1: where the first opening tag of the root and the preview colour
    hold no dollar sign, the colorized text differs from the base text in
    that tag alone: the first fill and the first stroke attribute text of
    the tag are gone and the fill of the preview colour is appended; the
    text before and after the tag, and so every other element, is as it
    was. *)
Theorem previewRenderSvg_first_tag :
  forall (base previewColor : jsstring) (m : RegExp.result),
    RegExp.exec App.svgTagRegex base = Some m ->
    ~ In 36 (RegExp.run m) -> ~ In 36 previewColor ->
    base = RegExp.before m ++ lit "<svg" ++ RegExp.run m ++ 62 :: RegExp.after m
    /\ App.previewRenderSvg base previewColor
       = RegExp.before m
         ++ (lit "<svg" ++ strippedAttributes (RegExp.run m)
             ++ qlit " fill='" ++ previewColor ++ qlit "'>")
         ++ RegExp.after m.
Proof.
  intros base color m X NA NC. split.
  - exact (proj1 (RegExpFacts.exec_sound App.svgTagRegex base m X)).
  - now apply ColorFacts.previewRenderSvg_plain.
Qed.

Lemma previewRenderSvg_first_tag_witness :
  App.previewRenderSvg
    (qlit "<svg width='24' fill='none' stroke='currentColor'><path fill='red'/></svg>")
    (lit "#ff0000")
  = qlit "<svg width='24'   fill='#ff0000'><path fill='red'/></svg>".
Proof.
  refine (eq_trans
            (proj2 (previewRenderSvg_first_tag
                      (qlit "<svg width='24' fill='none' stroke='currentColor'><path fill='red'/></svg>")
                      (lit "#ff0000")
                      (RegExp.mkResult [] (qlit " width='24' fill='none' stroke='currentColor'")
                                       (qlit "<path fill='red'/></svg>")) _ _ _)) _).
  - reflexivity.
  - vm_compute. intuition discriminate.
  - vm_compute. intuition discriminate.
  - vm_compute. reflexivity.
Defined.

(** X3: whatever the preview colour, the colorized text and the base text
    have the same text before and the same text after the first opening
    tag of the root: no element after that tag is altered. *)
Theorem previewRenderSvg_outside_first_tag :
  forall (base previewColor : jsstring) (m : RegExp.result),
    RegExp.exec App.svgTagRegex base = Some m ->
    base = RegExp.before m ++ lit "<svg" ++ RegExp.run m ++ 62 :: RegExp.after m
    /\ exists tag,
        App.previewRenderSvg base previewColor = RegExp.before m ++ tag ++ RegExp.after m.
Proof.
  intros base color m X. split.
  - exact (proj1 (RegExpFacts.exec_sound App.svgTagRegex base m X)).
  - rewrite (ColorFacts.previewRenderSvg_match base color m X). eexists. reflexivity.
Qed.

Lemma previewRenderSvg_outside_first_tag_witness :
  exists tag,
    App.previewRenderSvg (qlit "<!-- icon --><svg width='24'><path fill='red'/></svg>")
                         [36; 38]
    = qlit "<!-- icon -->" ++ tag ++ qlit "<path fill='red'/></svg>".
Proof.
  refine (proj2 (previewRenderSvg_outside_first_tag
                   (qlit "<!-- icon --><svg width='24'><path fill='red'/></svg>") [36; 38]
                   (RegExp.mkResult (qlit "<!-- icon -->") (qlit " width='24'")
                                    (qlit "<path fill='red'/></svg>")) _)).
  reflexivity.
Defined.

(** C4 where the code departs from it. A preview colour that holds a
    dollar sign: the replacement string of [replace] is expanded, so with
    the colour of two dollar signs the appended fill holds one, and with a
    dollar sign and an ampersand it holds the whole opening tag. A root
    whose attribute data-fill stands before its fill: the text of data-fill
    is cut and the fill of the root stays. In each case the colorized text
    is not the base text with the fill and stroke of the root removed and
    the fill of the colour, as it was given, appended to the root tag. *)
Theorem previewRenderSvg_expands_dollar_patterns :
  let base := qlit "<svg width='24'><path fill='red'/></svg>" in
  App.previewRenderSvg base [36; 36]
  = qlit "<svg width='24' fill='$'><path fill='red'/></svg>"
  /\ App.previewRenderSvg base [36; 36]
     <> qlit "<svg width='24' fill='$$'><path fill='red'/></svg>"
  /\ App.previewRenderSvg base [36; 38]
     = qlit "<svg width='24' fill='<svg width='24'>'><path fill='red'/></svg>"
  /\ App.previewRenderSvg base [36; 38]
     <> qlit "<svg width='24' fill='$&'><path fill='red'/></svg>"
  /\ App.previewRenderSvg (qlit "<svg data-fill='a' fill='red'/>") (lit "#ff0000")
     = qlit "<svg data- fill='red'/ fill='#ff0000'>".
Proof.
  cbv zeta. repeat split; try reflexivity; vm_compute; discriminate.
Qed.

(** ** The document tree *)

Module DomFacts.
Import Dom.

(** *** Attribute lists *)

Lemma lookup_removeFirst_other name other attrs :
  name <> other -> lookup name (removeFirst other attrs) = lookup name attrs.
Proof.
  intros NE. induction attrs as [|[n v] r IH]; simpl; [reflexivity|].
  destruct (jseqb n other) eqn:E1.
  - apply jseqb_eq in E1; subst n.
    destruct (jseqb other name) eqn:E2; [apply jseqb_eq in E2; congruence|reflexivity].
  - simpl. now rewrite IH.
Qed.

Lemma lookup_none name attrs :
  existsb (jseqb name) (map fst attrs) = false -> lookup name attrs = None.
Proof.
  induction attrs as [|[n v] r IH]; simpl; [reflexivity|].
  intros H. apply orb_false_iff in H. destruct H as [H1 H2].
  destruct (jseqb n name) eqn:E; [|auto].
  apply jseqb_eq in E; subst n. now rewrite jseqb_refl in H1.
Qed.

Lemma lookup_removeFirst_same name attrs :
  distinct (map fst attrs) = true -> lookup name (removeFirst name attrs) = None.
Proof.
  induction attrs as [|[n v] r IH]; simpl; [reflexivity|].
  intros H. apply andb_true_iff in H. destruct H as [H1 H2].
  destruct (jseqb n name) eqn:E.
  - apply jseqb_eq in E; subst n. apply lookup_none.
    now apply negb_true_iff in H1.
  - simpl. rewrite E. auto.
Qed.


Lemma removeFirst_fst_incl name attrs x :
  In x (map fst (removeFirst name attrs)) -> In x (map fst attrs).
Proof.
  induction attrs as [|[n v] r IH]; simpl; [auto|].
  destruct (jseqb n name); simpl; [auto|]. intros [H|H]; auto.
Qed.

Lemma existsb_jseqb_in name names :
  existsb (jseqb name) names = true <-> In name names.
Proof.
  rewrite existsb_exists. split.
  - intros [x [I E]]. apply jseqb_eq in E. now subst.
  - intros I. exists name. split; [assumption|apply jseqb_refl].
Qed.

Lemma distinct_removeFirst name attrs :
  distinct (map fst attrs) = true -> distinct (map fst (removeFirst name attrs)) = true.
Proof.
  induction attrs as [|[n v] r IH]; simpl; [reflexivity|].
  intros H. apply andb_true_iff in H. destruct H as [H1 H2].
  destruct (jseqb n name); [assumption|]. simpl.
  rewrite IH by assumption. rewrite andb_true_r.
  apply negb_true_iff. apply negb_true_iff in H1.
  destruct (existsb (jseqb n) (map fst (removeFirst name r))) eqn:E; [|reflexivity].
  apply existsb_jseqb_in, removeFirst_fst_incl, existsb_jseqb_in in E. congruence.
Qed.


(** *** Mutation through node references *)

Lemma querySelectorAll_refs t a cs : querySelectorAll (mkElement t a cs) = refsFrom 0 cs.
Proof.
  simpl. generalize 0%nat. induction cs as [|c r IH]; intros i; [reflexivity|].
  destruct c; simpl; now rewrite IH.
Qed.

Lemma updateNth_app {A} (f : A -> A) pre x r :
  updateNth (List.length pre) f (pre ++ x :: r) = pre ++ f x :: r.
Proof. induction pre as [|y pre IH]; simpl; [reflexivity|]. now rewrite IH. Qed.

Lemma mutate_child f t a pre x r q :
  mutate (List.length pre :: q) f (mkElement t a (pre ++ ElementNode x :: r))
  = mkElement t a (pre ++ ElementNode (mutate q f x) :: r).
Proof. simpl. now rewrite updateNth_app. Qed.

Lemma forEach_child f t a pre r qs x :
  forEach (map (cons (List.length pre)) qs) f (mkElement t a (pre ++ ElementNode x :: r))
  = mkElement t a (pre ++ ElementNode (forEach qs f x) :: r).
Proof.
  unfold forEach. revert x. induction qs as [|q qs IH]; intros x; [reflexivity|].
  cbn [map fold_left]. rewrite mutate_child. apply IH.
Qed.

Lemma forEach_app f l1 l2 e : forEach (l1 ++ l2) f e = forEach l2 f (forEach l1 f e).
Proof. unfold forEach. apply fold_left_app. Qed.

Lemma forEach_children g cs :
  Forall (fun c => match c with
                   | ElementNode e =>
                       forall a', forEach (querySelectorAll e) (onAttrs g)
                                          (mkElement (tagName e) a' (childNodes e))
                                  = mkElement (tagName e) a' (map (deepNode g) (childNodes e))
                   | CharacterData _ => True
                   end) cs ->
  forall pre t a,
    forEach (refsFrom (List.length pre) cs) (onAttrs g) (mkElement t a (pre ++ cs))
    = mkElement t a (pre ++ map (deepNode g) cs).
Proof.
  induction 1 as [|c r Hc F IH]; intros pre t a; [reflexivity|].
  destruct c as [e'|d].
  - cbn [refsFrom]. rewrite forEach_app.
    change ([List.length pre] :: map (cons (List.length pre)) (querySelectorAll e'))
      with (map (cons (List.length pre)) ([] :: querySelectorAll e')).
    rewrite forEach_child.
    replace (forEach ([] :: querySelectorAll e') (onAttrs g) e') with (deep g e').
    + specialize (IH (pre ++ [ElementNode (deep g e')]) t a).
      rewrite length_app, Nat.add_1_r in IH. rewrite <- !app_assoc in IH. exact IH.
    + destruct e' as [t' a0 cs']. unfold forEach. cbn [fold_left mutate onAttrs].
      exact (eq_sym (Hc (g a0))).
  - cbn [refsFrom].
    specialize (IH (pre ++ [CharacterData d]) t a).
    rewrite length_app, Nat.add_1_r in IH. rewrite <- !app_assoc in IH. exact IH.
Qed.

Lemma forEach_descendants g e :
  forall a', forEach (querySelectorAll e) (onAttrs g) (mkElement (tagName e) a' (childNodes e))
             = mkElement (tagName e) a' (map (deepNode g) (childNodes e)).
Proof.
  induction e as [t a cs IH] using Element_tree_ind. intros a'. simpl tagName. simpl childNodes.
  rewrite querySelectorAll_refs. exact (forEach_children g cs IH [] t a').
Qed.

(** Mutating every descendant through its reference and then the element
    itself changes the attribute lists of the whole tree. *)
Lemma forEach_then_root g e :
  onAttrs g (forEach (querySelectorAll e) (onAttrs g) e) = deep g e.
Proof.
  destruct e as [t a cs].
  pose proof (forEach_descendants g (mkElement t a cs) a) as H.
  cbn [tagName childNodes] in H. rewrite H. reflexivity.
Qed.

(** *** The tree after a change of attribute lists *)

Lemma inclusiveDescendants_unfold t a cs :
  inclusiveDescendants (mkElement t a cs) = mkElement t a cs :: flat_map descend cs.
Proof. reflexivity. Qed.

Lemma inclusiveDescendants_deep g e :
  inclusiveDescendants (deep g e) = map (deep g) (inclusiveDescendants e).
Proof.
  induction e as [t a cs IH] using Element_tree_ind.
  change (deep g (mkElement t a cs)) with (mkElement t (g a) (map (deepNode g) cs)) at 1.
  rewrite !inclusiveDescendants_unfold. cbn [map]. f_equal.
  induction IH as [|c r Hc F IHr]; [reflexivity|].
  cbn [map flat_map]. rewrite map_app, IHr. f_equal.
  destruct c; [exact Hc|reflexivity].
Qed.

Lemma wellFormed_unfold t a cs :
  wellFormed (mkElement t a cs) = true <->
  distinct (map fst a) = true
  /\ Forall (fun c => match c with
                      | ElementNode e => wellFormed e = true
                      | CharacterData _ => True
                      end) cs.
Proof.
  unfold wellFormed. rewrite inclusiveDescendants_unfold. cbn [forallb attributes].
  rewrite andb_true_iff. apply and_iff_compat_l.
  induction cs as [|c r IH]; cbn [flat_map forallb].
  - split; [constructor|reflexivity].
  - rewrite forallb_app, andb_true_iff, IH. split.
    + intros [H1 H2]. constructor; [destruct c; [exact H1|exact I]|exact H2].
    + intros H. inversion H; subst. split; [destruct c; [assumption|reflexivity]|assumption].
Qed.

End DomFacts.

(** ** Blank input *)

Module TrimFacts.
Import Str.

Lemma trimStart_nil s : trimStart s = [] <-> blank s.
Proof.
  induction s as [|c r IH]; simpl.
  - split; [constructor|reflexivity].
  - destruct (isWhiteSpace c) eqn:E.
    + rewrite IH. split; [now constructor|]. intros H. now inversion H.
    + split; [discriminate|]. intros H. apply Forall_inv in H. simpl in H. congruence.
Qed.

Lemma trimStart_head s c r : trimStart s = c :: r -> isWhiteSpace c = false.
Proof.
  induction s as [|x s IH]; simpl; [discriminate|].
  destruct (isWhiteSpace x) eqn:E; [exact IH|]. intros H. injection H as -> _. exact E.
Qed.

Lemma blank_rev s : blank (rev s) <-> blank s.
Proof.
  unfold blank. rewrite !Forall_forall. split; intros H x I; apply H.
  - now apply in_rev in I.
  - now apply in_rev.
Qed.

(** The trimmed text is empty exactly for a text of white space alone. *)
Lemma trim_nil s : trim s = [] <-> blank s.
Proof.
  unfold trim, trimEnd. split.
  - intros H. apply (f_equal (@rev _)) in H. rewrite rev_involutive in H. simpl in H.
    apply (proj1 (trimStart_nil _)) in H. apply (proj1 (blank_rev _)) in H.
    destruct (trimStart s) as [|c r] eqn:E; [now apply trimStart_nil|].
    apply trimStart_head in E. apply Forall_inv in H. simpl in H. congruence.
  - intros H. apply trimStart_nil in H. rewrite H. reflexivity.
Qed.
End TrimFacts.

(** ** The attribute transformer *)

Module MutatedFacts.
Import Dom DomFacts.

Lemma removeAttribute_onAttrs name e : removeAttribute name e = onAttrs (removeFirst name) e.
Proof. destruct e; reflexivity. Qed.

(** The mutations of [optimizeSvgBase]: the removals on the root, then the
    removal of class from the whole tree. *)
Lemma mutated_eq options e :
  mutated options e =
  if removeClasses options
  then deep (removeFirst (lit "class")) (onAttrs (rootAttrs options) e)
  else onAttrs (rootAttrs options) e.
Proof.
  assert (R : forall x,
             removeAttribute (lit "class")
               (forEach (querySelectorAll x)
                        (fun el => removeAttribute (lit "class") el) x)
             = deep (removeFirst (lit "class")) x).
  { intros x. rewrite removeAttribute_onAttrs. apply forEach_then_root. }
  unfold mutated. destruct e as [t a cs].
  destruct (removeClasses options); [rewrite R|];
    unfold rootAttrs; destruct (removeXmlns options), (removeWidth options),
      (removeHeight options); reflexivity.
Qed.


Lemma rootAttrs_distinct options a :
  distinct (map fst a) = true -> distinct (map fst (rootAttrs options a)) = true.
Proof.
  intros D. unfold rootAttrs.
  destruct (removeXmlns options), (removeWidth options), (removeHeight options);
    repeat apply distinct_removeFirst; assumption.
Qed.

Lemma rootAttrs_lookup options name a :
  name <> lit "xmlns" -> name <> lit "width" -> name <> lit "height" ->
  lookup name (rootAttrs options a) = lookup name a.
Proof.
  intros N1 N2 N3. unfold rootAttrs.
  destruct (removeXmlns options), (removeWidth options), (removeHeight options);
    repeat rewrite lookup_removeFirst_other by assumption; reflexivity.
Qed.



Lemma wellFormed_onAttrs g e :
  (forall a, distinct (map fst a) = true -> distinct (map fst (g a)) = true) ->
  wellFormed e = true -> wellFormed (onAttrs g e) = true.
Proof.
  intros G. destruct e as [t a cs]. simpl onAttrs. rewrite !wellFormed_unfold.
  intros [D F]. split; auto.
Qed.

Lemma tagName_mutated options e : tagName (mutated options e) = tagName e.
Proof.
  rewrite mutated_eq. destruct e as [t a cs]. destruct (removeClasses options); reflexivity.
Qed.

Lemma localNames_deep g e :
  map localName (inclusiveDescendants (deep g e)) = map localName (inclusiveDescendants e).
Proof.
  rewrite inclusiveDescendants_deep, map_map. apply map_ext.
  intros [t a cs]. reflexivity.
Qed.

Lemma localNames_mutated options e :
  map localName (inclusiveDescendants (mutated options e))
  = map localName (inclusiveDescendants e).
Proof.
  rewrite mutated_eq. destruct (removeClasses options).
  - rewrite localNames_deep. destruct e as [t a cs]. reflexivity.
  - destruct e as [t a cs]. reflexivity.
Qed.

Lemma find_localName name l1 l2 :
  map localName l1 = map localName l2 ->
  (exists x, find (fun e => jseqb (localName e) name) l1 = Some x)
  <-> (exists x, find (fun e => jseqb (localName e) name) l2 = Some x).
Proof.
  revert l2. induction l1 as [|x l1 IH]; intros [|y l2] E; try discriminate E.
  - reflexivity.
  - simpl in E. injection E as E1 E2. simpl. rewrite E1.
    destruct (jseqb (localName y) name); [split; eauto|]. now apply IH.
Qed.

(** The mutations keep the document valid or invalid as it was. *)
Lemma invalid_mutated options doc :
  invalid (mkDocument (mutated options (documentElement doc))) = invalid doc.
Proof.
  unfold invalid. cbn [documentElement]. rewrite tagName_mutated. f_equal.
  unfold querySelector. cbn [documentElement].
  pose proof (find_localName (lit "parsererror") _ _
                (localNames_mutated options (documentElement doc))) as H.
  destruct (find _ (inclusiveDescendants (mutated options (documentElement doc)))) eqn:E1;
    destruct (find _ (inclusiveDescendants (documentElement doc))) eqn:E2; try reflexivity.
  - destruct (proj1 H (ex_intro _ _ eq_refl)); discriminate.
  - destruct (proj2 H (ex_intro _ _ eq_refl)); discriminate.
Qed.


Lemma getAttribute_deep_removed name e x :
  wellFormed e = true -> In x (inclusiveDescendants (deep (removeFirst name) e)) ->
  getAttribute name x = None.
Proof.
  intros W I. rewrite inclusiveDescendants_deep in I. apply in_map_iff in I.
  destruct I as [y [<- I]]. unfold wellFormed in W. rewrite forallb_forall in W.
  specialize (W y I). destruct y as [t a cs]. unfold getAttribute. cbn [deep attributes] in *.
  now apply lookup_removeFirst_same.
Qed.
End MutatedFacts.

Section TransformerFacts.
Context {host : Host}.
Import Monad.

Lemma optimizeSvgBase_blank svgString options :
  Str.trim svgString = [] -> optimizeSvgBase svgString options = ([], Return []).
Proof. intros H. unfold optimizeSvgBase. now rewrite H. Qed.

Lemma optimizeSvgBase_parse_throws svgString options e :
  Str.trim svgString <> [] ->
  parseFromString svgString svgMime = Throw e ->
  optimizeSvgBase svgString options
  = ([Parsed svgString svgMime; ConsoleError (lit "Error optimizing SVG:") (Some e)],
     Return svgString).
Proof.
  intros NE P. unfold optimizeSvgBase.
  destruct (Str.trim svgString); [congruence|]. cbn [Str.truthy negb].
  fold svgMime. rewrite P. reflexivity.
Qed.

Lemma optimizeSvgBase_invalid svgString options doc :
  Str.trim svgString <> [] ->
  parseFromString svgString svgMime = Return doc ->
  invalid doc = true ->
  optimizeSvgBase svgString options
  = ([Parsed svgString svgMime; ConsoleError (lit "Invalid SVG input") None],
     Return svgString).
Proof.
  intros NE P I. unfold optimizeSvgBase.
  destruct (Str.trim svgString); [congruence|]. cbn [Str.truthy negb].
  fold svgMime. rewrite P. unfold lift, bind, tryCatch. fold (invalid doc). rewrite I.
  reflexivity.
Qed.

Lemma optimizeSvgBase_valid svgString options doc :
  Str.trim svgString <> [] ->
  parseFromString svgString svgMime = Return doc ->
  invalid doc = false ->
  optimizeSvgBase svgString options
  = match serializeToString (mutated options (documentElement doc)) with
    | Return text =>
        ([Parsed svgString svgMime; Serialized (mutated options (documentElement doc))],
         Return text)
    | Throw e =>
        ([Parsed svgString svgMime; Serialized (mutated options (documentElement doc));
          ConsoleError (lit "Error optimizing SVG:") (Some e)],
         Return svgString)
    end.
Proof.
  intros NE P I. unfold optimizeSvgBase.
  destruct (Str.trim svgString); [congruence|]. cbn [Str.truthy negb].
  fold svgMime. rewrite P. unfold lift, bind, tryCatch. fold (invalid doc). rewrite I.
  fold (mutated options (documentElement doc)).
  destruct (serializeToString (mutated options (documentElement doc))); reflexivity.
Qed.

(** X2: on every host, for every input and every options, the transformer
    returns a text: no exception reaches the caller. *)
Theorem optimizeSvgBase_returns :
  forall (svgString : jsstring) (options : SvgOptions),
  exists out, completion (optimizeSvgBase svgString options) = Return out.
Proof.
  intros svgString options. destruct (Str.trim svgString) eqn:T.
  - rewrite optimizeSvgBase_blank by assumption. eexists; reflexivity.
  - assert (NE : Str.trim svgString <> []) by congruence.
    destruct (parseFromString svgString svgMime) as [doc|e] eqn:P.
    + destruct (invalid doc) eqn:I.
      * rewrite (optimizeSvgBase_invalid _ _ doc) by assumption. eexists; reflexivity.
      * rewrite (optimizeSvgBase_valid _ _ doc) by assumption.
        destruct (serializeToString _); eexists; reflexivity.
    + rewrite (optimizeSvgBase_parse_throws _ _ e) by assumption. eexists; reflexivity.
Qed.

(** The text of a valid document is the text the host writes for the
    mutated root. *)
Lemma optimizeSvgBase_output svgString options doc text :
  Str.trim svgString <> [] ->
  parseFromString svgString svgMime = Return doc ->
  invalid doc = false ->
  serializeToString (mutated options (documentElement doc)) = Return text ->
  completion (optimizeSvgBase svgString options) = Return text.
Proof.
  intros NE P I S. rewrite (optimizeSvgBase_valid _ _ doc) by assumption. now rewrite S.
Qed.

(** C7: for a text of white space alone, the empty text included, and any
    options the transformer returns the empty text; its trace is empty, so
    the host was not asked to parse. *)
Theorem optimizeSvgBase_blank_input :
  forall (svgString : jsstring) (options : SvgOptions),
    blank svgString ->
    optimizeSvgBase svgString options = ([], Return []).
Proof.
  intros svgString options B. apply optimizeSvgBase_blank.
  now apply TrimFacts.trim_nil.
Qed.

(** C1: for a text that is not empty after trimming, when the parser
    throws, or the root of the parsed document is not svg in any case of
    letters, or the document holds a parsererror element, or the serializer
    throws, the transformer returns the input text; it returns, it does not
    throw. *)
Theorem optimizeSvgBase_echoes_invalid_input :
  forall (svgString : jsstring) (options : SvgOptions),
    Str.trim svgString <> [] ->
    ((exists e, parseFromString svgString svgMime = Throw e)
     \/ (exists doc,
            parseFromString svgString svgMime = Return doc
            /\ (Str.toLowerCase (Dom.tagName (documentElement doc)) <> lit "svg"
                \/ Dom.querySelector (lit "parsererror") doc <> None))
     \/ (exists doc e,
            parseFromString svgString svgMime = Return doc
            /\ serializeToString (mutated options (documentElement doc)) = Throw e)) ->
    completion (optimizeSvgBase svgString options) = Return svgString.
Proof.
  intros svgString options NE [[e P]|[[doc [P [T|Q]]]|[doc [e [P S]]]]].
  - now rewrite (optimizeSvgBase_parse_throws _ _ e).
  - rewrite (optimizeSvgBase_invalid _ _ doc); [reflexivity|assumption|assumption|].
    unfold invalid. apply jseqb_neq in T. now rewrite T.
  - rewrite (optimizeSvgBase_invalid _ _ doc); [reflexivity|assumption|assumption|].
    unfold invalid. destruct (Dom.querySelector (lit "parsererror") doc); [|congruence].
    apply orb_true_r.
  - destruct (invalid doc) eqn:I.
    + now rewrite (optimizeSvgBase_invalid _ _ doc).
    + rewrite (optimizeSvgBase_valid _ _ doc) by assumption. now rewrite S.
Qed.

(** C5: for a valid SVG input, the output is the text the host serializer
    writes for the mutated root; with removeClasses set, neither that root
    nor any of its descendants has a class attribute; with removeClasses
    not set, the root and every descendant keep their class attribute, and
    the children of the root are as they were parsed. *)
Theorem optimizeSvgBase_classes :
  forall (svgString : jsstring) (options : SvgOptions) (doc : Document),
    Str.trim svgString <> [] ->
    parseFromString svgString svgMime = Return doc ->
    invalid doc = false ->
    Dom.wellFormed (documentElement doc) = true ->
    (forall text,
        serializeToString (mutated options (documentElement doc)) = Return text ->
        completion (optimizeSvgBase svgString options) = Return text)
    /\ (removeClasses options = true ->
        Forall (fun e => Dom.getAttribute (lit "class") e = None)
               (Dom.inclusiveDescendants (mutated options (documentElement doc))))
    /\ (removeClasses options = false ->
        map (Dom.getAttribute (lit "class"))
            (Dom.inclusiveDescendants (mutated options (documentElement doc)))
        = map (Dom.getAttribute (lit "class"))
              (Dom.inclusiveDescendants (documentElement doc))
        /\ Dom.childNodes (mutated options (documentElement doc))
           = Dom.childNodes (documentElement doc)).
Proof.
  intros svgString options doc NE P I W. split; [|split].
  - intros text S. now apply (optimizeSvgBase_output _ _ doc).
  - intros C. rewrite MutatedFacts.mutated_eq, C. apply Forall_forall. intros x Hx.
    apply (MutatedFacts.getAttribute_deep_removed (lit "class")
             (onAttrs (rootAttrs options) (documentElement doc))); [|assumption].
    apply MutatedFacts.wellFormed_onAttrs; [|assumption].
    apply MutatedFacts.rootAttrs_distinct.
  - intros C. rewrite MutatedFacts.mutated_eq, C.
    destruct (documentElement doc) as [t a cs]. cbn [onAttrs Dom.childNodes].
    split; [|reflexivity].
    rewrite !DomFacts.inclusiveDescendants_unfold. cbn [map]. f_equal.
    unfold Dom.getAttribute. cbn [Dom.attributes].
    apply MutatedFacts.rootAttrs_lookup; discriminate.
Qed.

End TransformerFacts.

(** ** The transformer on the reference host *)

Lemma optimizeSvgBase_blank_input_witness :
  optimizeSvgBase (host := RefHost.host) [32; 10; 9; 160] defaultOptions = ([], Return []).
Proof.
  apply (optimizeSvgBase_blank_input (host := RefHost.host)).
  repeat constructor.
Defined.

Lemma optimizeSvgBase_echoes_invalid_input_witness :
  Monad.completion (optimizeSvgBase (host := RefHost.host) (lit "<div>x</div>") defaultOptions)
  = Return (lit "<div>x</div>").
Proof.
  apply (optimizeSvgBase_echoes_invalid_input (host := RefHost.host)).
  - vm_compute. discriminate.
  - right. left. exists (RefHost.parse (lit "<div>x</div>")). split; [reflexivity|].
    left. vm_compute. discriminate.
Defined.

Lemma optimizeSvgBase_classes_witness :
  Forall (fun e => Dom.getAttribute (lit "class") e = None)
         (Dom.inclusiveDescendants
            (mutated defaultOptions (documentElement (RefHost.parse scenarioSvg))))
  /\ map (Dom.getAttribute (lit "class"))
         (Dom.inclusiveDescendants
            (mutated (withRemoveClasses defaultOptions false)
                     (documentElement (RefHost.parse scenarioSvg))))
     = [Some (lit "icon"); Some (lit "p")].
Proof.
  split.
  - refine (proj1 (proj2 (optimizeSvgBase_classes (host := RefHost.host) scenarioSvg
                            defaultOptions (RefHost.parse scenarioSvg) _ _ _ _)) _).
    + vm_compute. discriminate.
    + reflexivity.
    + vm_compute. reflexivity.
    + vm_compute. reflexivity.
    + reflexivity.
  - refine (eq_trans
              (proj1 (proj2 (proj2 (optimizeSvgBase_classes (host := RefHost.host) scenarioSvg
                                      (withRemoveClasses defaultOptions false)
                                      (RefHost.parse scenarioSvg) _ _ _ _)) _)) _).
    + vm_compute. discriminate.
    + reflexivity.
    + vm_compute. reflexivity.
    + vm_compute. reflexivity.
    + reflexivity.
    + vm_compute. reflexivity.
Defined.


(** ** The transformer on the host nearer to the browsers *)

(** C2: on a host whose serializer declares the namespace of the root, the
    output of the scenario of the specification with removeXmlns set still
    has an xmlns attribute on its root. The xmlns attribute is removed
    from the tree, which is serialized without it; the serializer writes
    the declaration of the namespace the root was parsed in. *)
Theorem optimizeSvgBase_declares_namespace :
  let options := withRemoveXmlns defaultOptions true in
  let root := mutated options (documentElement (XmlHost.parse scenarioSvg)) in
  Dom.getAttribute (lit "xmlns") (documentElement (XmlHost.parse scenarioSvg))
  = Some (lit "http://www.w3.org/2000/svg")
  /\ Dom.getAttribute (lit "xmlns") root = None
  /\ optimizeSvgBase (host := XmlHost.host) scenarioSvg options
     = ([Parsed scenarioSvg svgMime; Serialized root],
        Return (qlit "<svg xmlns='http://www.w3.org/2000/svg'><path d='M0 0'/></svg>")).
Proof. vm_compute. repeat split. Qed.


(** The two passes of that input. *)
Example optimizeSvgBase_carriage_return :
  Monad.completion
    (optimizeSvgBase (host := XmlHost.host)
                     (qlit "<svg xmlns='http://www.w3.org/2000/svg'>a&#13;b</svg>")
                     defaultOptions)
  = Return (qlit "<svg xmlns='http://www.w3.org/2000/svg'>a" ++ 13 :: lit "b</svg>")
  /\ Monad.completion
       (optimizeSvgBase (host := XmlHost.host)
                        (qlit "<svg xmlns='http://www.w3.org/2000/svg'>a" ++ 13 :: lit "b</svg>")
                        defaultOptions)
     = Return (qlit "<svg xmlns='http://www.w3.org/2000/svg'>a" ++ 10 :: lit "b</svg>").
Proof. vm_compute. split; reflexivity. Qed.

(** The end-to-end scenario of the specification, on the reference host:
    width, height and every class are gone, xmlns stays. *)
Example optimizeSvgBase_scenario :
  Monad.completion (optimizeSvgBase (host := RefHost.host) scenarioSvg defaultOptions)
  = Return (qlit "<svg xmlns='http://www.w3.org/2000/svg'><path d='M0 0'/></svg>").
Proof. vm_compute. reflexivity. Qed.

(** A serializer that fails leaves the input as the output, and the
    failure on the diagnostic channel. *)
Example optimizeSvgBase_serializer_fails :
  optimizeSvgBase (host := RefHost.failing) (lit "<svg/>") defaultOptions
  = ([Parsed (lit "<svg/>") svgMime;
      Serialized (mkElement (lit "svg") [] []);
      ConsoleError (lit "Error optimizing SVG:") (Some (HostException 11))],
     Return (lit "<svg/>")).
Proof. vm_compute. reflexivity. Qed.

(** ** The encodings of the data URL *)

Ltac Zify.zify_post_hook ::= Z.to_euclidean_division_equations.

Module EncodingFacts.

Lemma list_ind2 {A} (P : list A -> Prop) :
  P [] -> (forall c, P [c]) -> (forall c d r, P r -> P (d :: r) -> P (c :: d :: r)) ->
  forall s, P s.
Proof.
  intros H0 H1 H2 s.
  assert (Q : P s /\ forall c, P (c :: s)).
  { induction s as [|d r [IH1 IH2]]; [split; auto|].
    split; [apply IH2|]. intros c. apply H2; auto. }
  apply Q.
Qed.

Lemma list_ind3 {A} (P : list A -> Prop) :
  P [] -> (forall a, P [a]) -> (forall a b, P [a; b]) ->
  (forall a b c r, P r -> P (a :: b :: c :: r)) ->
  forall s, P s.
Proof.
  intros H0 H1 H2 H3 s.
  assert (Q : P s /\ (forall a, P (a :: s)) /\ forall a b, P (a :: b :: s)).
  { induction s as [|c r [IH1 [IH2 IH3]]]; [repeat split; auto|].
    repeat split; [apply IH2|intros; apply IH3|intros; now apply H3]. }
  apply Q.
Qed.

(** *** Base64 *)

Lemma value_alphabet i : i < 64 -> Base64.value (Base64.alphabet i) = Some i.
Proof.
  intros H. unfold Base64.alphabet.
  destruct (i <? 26) eqn:E1; [|destruct (i <? 52) eqn:E2;
    [|destruct (i <? 62) eqn:E3; [|destruct (i =? 62) eqn:E4]]];
    unfold Base64.value.
  - replace ((65 <=? 65 + i) && (65 + i <=? 90)) with true by lia. f_equal. lia.
  - replace ((65 <=? 71 + i) && (71 + i <=? 90)) with false by lia.
    replace ((97 <=? 71 + i) && (71 + i <=? 122)) with true by lia. f_equal. lia.
  - replace ((65 <=? i - 4) && (i - 4 <=? 90)) with false by lia.
    replace ((97 <=? i - 4) && (i - 4 <=? 122)) with false by lia.
    replace ((48 <=? i - 4) && (i - 4 <=? 57)) with true by lia. f_equal. lia.
  - replace i with 62 by lia. reflexivity.
  - replace i with 63 by lia. reflexivity.
Qed.

Lemma pad_no_value : Base64.value 61 = None.
Proof. reflexivity. Qed.

Lemma decode_encode bytes :
  Forall octet bytes -> Base64.decode (Base64.encode bytes) = Some bytes.
Proof.
  unfold octet. induction bytes as [|a|a b|a b c r IH] using list_ind3; intros F.
  - reflexivity.
  - apply Forall_inv in F. cbn [Base64.encode Base64.decode].
    rewrite !value_alphabet by lia. rewrite pad_no_value. cbn.
    f_equal. f_equal. lia.
  - pose proof (Forall_inv F) as Ha. pose proof (Forall_inv (Forall_inv_tail F)) as Hb.
    cbv beta in Ha, Hb. cbn [Base64.encode Base64.decode].
    rewrite !value_alphabet by lia. rewrite pad_no_value. cbn.
    f_equal. f_equal; [lia|f_equal; lia].
  - pose proof (Forall_inv F) as Ha. pose proof (Forall_inv (Forall_inv_tail F)) as Hb.
    pose proof (Forall_inv (Forall_inv_tail (Forall_inv_tail F))) as Hc.
    pose proof (Forall_inv_tail (Forall_inv_tail (Forall_inv_tail F))) as Fr.
    cbv beta in Ha, Hb, Hc.
    change (Base64.encode (a :: b :: c :: r))
      with (Base64.alphabet (a / 4) :: Base64.alphabet ((a mod 4) * 16 + b / 16)
            :: Base64.alphabet ((b mod 16) * 4 + c / 64) :: Base64.alphabet (c mod 64)
            :: Base64.encode r).
    cbn [Base64.decode]. rewrite !value_alphabet by lia. rewrite (IH Fr).
    f_equal. f_equal; [lia|f_equal; [lia|f_equal; lia]].
Qed.

Lemma btoa_octets bytes :
  Forall octet bytes -> Base64.btoa bytes = Return (Base64.encode bytes).
Proof.
  intros F. unfold Base64.btoa.
  replace (forallb (fun c => c <=? 255) bytes) with true; [reflexivity|].
  symmetry. apply forallb_forall. rewrite Forall_forall in F.
  intros x Hx. specialize (F x Hx). unfold octet in F. lia.
Qed.

(** *** UTF-8 *)

Ltac resolve_if :=
  match goal with
  | |- context [if ?b then _ else _] =>
      first [ replace b with true by (unfold Utf8Decode.isContinuation; lia)
            | replace b with false by (unfold Utf8Decode.isContinuation; lia) ];
      cbv iota
  end.

Lemma utf8Encode_octets cp : cp < 1114112 -> Forall octet (Utf.utf8Encode cp).
Proof.
  intros H. unfold Utf.utf8Encode, octet.
  destruct (cp <? 128) eqn:E1; [|destruct (cp <? 2048) eqn:E2; [|destruct (cp <? 65536) eqn:E3]];
    repeat constructor; lia.
Qed.

Lemma codePoints_utf8Encode cp rest :
  scalar cp ->
  Utf8Decode.codePoints (Utf.utf8Encode cp ++ rest)
  = match Utf8Decode.codePoints rest with
    | Some l => Some (cp :: l)
    | None => None
    end.
Proof.
  intros S. unfold scalar in S. unfold Utf.utf8Encode.
  destruct (cp <? 128) eqn:E1; [|destruct (cp <? 2048) eqn:E2; [|destruct (cp <? 65536) eqn:E3]];
    cbn [app Utf8Decode.codePoints]; repeat resolve_if.
  - reflexivity.
  - replace ((192 + cp / 64 - 192) * 64 + (128 + cp mod 64 - 128)) with cp by lia.
    reflexivity.
  - replace ((224 + cp / 4096 - 224) * 4096 + (128 + (cp / 64) mod 64 - 128) * 64
             + (128 + cp mod 64 - 128)) with cp by lia.
    reflexivity.
  - replace ((240 + cp / 262144 - 240) * 262144 + (128 + (cp / 4096) mod 64 - 128) * 4096
             + (128 + (cp / 64) mod 64 - 128) * 64 + (128 + cp mod 64 - 128)) with cp by lia.
    reflexivity.
Qed.

Lemma scalar_bound cp : scalar cp -> cp < 1114112.
Proof. unfold scalar. lia. Qed.

(** *** UTF-16 *)

Lemma codePoints_utf16 s :
  wf_string s ->
  forall cps, Utf.codePoints s = Some cps ->
              Forall scalar cps /\ flat_map Utf8Decode.utf16Encode cps = s.
Proof.
  unfold wf_string, wf_char.
  induction s as [|c|c d r IH1 IH2] using list_ind2; intros W cps E.
  - injection E as <-. split; [constructor|reflexivity].
  - apply Forall_inv in W. cbn [Utf.codePoints] in E.
    unfold Utf.isTrailSurrogate, Utf.isLeadSurrogate in E.
    destruct ((56320 <=? c) && (c <=? 57343)) eqn:T; [discriminate|].
    destruct ((55296 <=? c) && (c <=? 56319)) eqn:L; [discriminate|].
    injection E as <-. split.
    + constructor; [unfold scalar; lia|constructor].
    + cbn [flat_map]. unfold Utf8Decode.utf16Encode.
      replace (c <? 65536) with true by lia. reflexivity.
  - pose proof (Forall_inv W) as Wc. pose proof (Forall_inv (Forall_inv_tail W)) as Wd.
    pose proof (Forall_inv_tail W) as W1. pose proof (Forall_inv_tail W1) as W2.
    cbv beta in Wc, Wd.
    change (Utf.codePoints (c :: d :: r))
      with (if Utf.isTrailSurrogate c then None
            else if Utf.isLeadSurrogate c then
                   if Utf.isTrailSurrogate d
                   then match Utf.codePoints r with
                        | Some l => Some (Utf.pairToCodePoint c d :: l)
                        | None => None
                        end
                   else None
                 else match Utf.codePoints (d :: r) with
                      | Some l => Some (c :: l)
                      | None => None
                      end) in E.
    unfold Utf.isTrailSurrogate, Utf.isLeadSurrogate in E.
    destruct ((56320 <=? c) && (c <=? 57343)) eqn:T; [discriminate|].
    destruct ((55296 <=? c) && (c <=? 56319)) eqn:L.
    + destruct ((56320 <=? d) && (d <=? 57343)) eqn:T'; [|discriminate].
      destruct (Utf.codePoints r) as [l|] eqn:R; [|discriminate].
      injection E as <-. destruct (IH1 W2 l eq_refl) as [F J]. split.
      * constructor; [unfold scalar, Utf.pairToCodePoint; lia|assumption].
      * cbn [flat_map]. rewrite J. unfold Utf8Decode.utf16Encode, Utf.pairToCodePoint.
        replace ((c - 55296) * 1024 + (d - 56320) + 65536 <? 65536) with false by lia.
        cbn [app]. f_equal; [lia|f_equal; lia].
    + destruct (Utf.codePoints (d :: r)) as [l|] eqn:R; [|discriminate].
      injection E as <-. destruct (IH2 W1 l eq_refl) as [F J]. split.
      * constructor; [unfold scalar; lia|assumption].
      * cbn [flat_map]. rewrite J. unfold Utf8Decode.utf16Encode.
        replace (c <? 65536) with true by lia. reflexivity.
Qed.

Lemma codePoints_utf8 cps :
  Forall scalar cps -> Utf8Decode.codePoints (flat_map Utf.utf8Encode cps) = Some cps.
Proof.
  induction 1 as [|cp cps Hcp F IH]; [reflexivity|].
  cbn [flat_map]. rewrite codePoints_utf8Encode by assumption. now rewrite IH.
Qed.

(** *** Percent escapes *)

Lemma unescaped_ascii c : URI.isUnescaped c = true -> c < 128 /\ c <> 37.
Proof. unfold URI.isUnescaped, URI.isAlnum. lia. Qed.

Lemma encodeURIComponent_codePoints s :
  URI.encodeURIComponent s
  = match Utf.codePoints s with
    | Some cps => Return (flat_map escape cps)
    | None => Throw URIError
    end.
Proof.
  induction s as [|c|c d r IH1 IH2] using list_ind2.
  - reflexivity.
  - cbn [URI.encodeURIComponent Utf.codePoints].
    destruct (URI.isUnescaped c) eqn:U.
    + apply unescaped_ascii in U as U'.
      replace (Utf.isTrailSurrogate c) with false
        by (unfold Utf.isTrailSurrogate; lia).
      replace (Utf.isLeadSurrogate c) with false
        by (unfold Utf.isLeadSurrogate; lia).
      cbn [flat_map app URI.prepend]. unfold escape. rewrite U. reflexivity.
    + destruct (Utf.isTrailSurrogate c); [reflexivity|].
      destruct (Utf.isLeadSurrogate c); [reflexivity|].
      cbn [flat_map app URI.prepend]. unfold escape. rewrite U. reflexivity.
  - change (URI.encodeURIComponent (c :: d :: r))
      with (if URI.isUnescaped c then URI.prepend [c] (URI.encodeURIComponent (d :: r))
            else if Utf.isTrailSurrogate c then Throw URIError
                 else if Utf.isLeadSurrogate c then
                        if Utf.isTrailSurrogate d
                        then URI.prepend (URI.escapeCodePoint (Utf.pairToCodePoint c d))
                                         (URI.encodeURIComponent r)
                        else Throw URIError
                      else URI.prepend (URI.escapeCodePoint c)
                                       (URI.encodeURIComponent (d :: r))).
    change (Utf.codePoints (c :: d :: r))
      with (if Utf.isTrailSurrogate c then None
            else if Utf.isLeadSurrogate c then
                   if Utf.isTrailSurrogate d
                   then match Utf.codePoints r with
                        | Some l => Some (Utf.pairToCodePoint c d :: l)
                        | None => None
                        end
                   else None
                 else match Utf.codePoints (d :: r) with
                      | Some l => Some (c :: l)
                      | None => None
                      end).
    rewrite IH1, IH2.
    destruct (URI.isUnescaped c) eqn:U.
    + apply unescaped_ascii in U as U'.
      replace (Utf.isTrailSurrogate c) with false
        by (unfold Utf.isTrailSurrogate; lia).
      replace (Utf.isLeadSurrogate c) with false
        by (unfold Utf.isLeadSurrogate; lia).
      destruct (Utf.codePoints (d :: r)); [|reflexivity].
      cbn [flat_map URI.prepend].
      change (escape c) with (if URI.isUnescaped c then [c] else URI.escapeCodePoint c).
      rewrite U. reflexivity.
    + destruct (Utf.isTrailSurrogate c) eqn:T; [reflexivity|].
      destruct (Utf.isLeadSurrogate c) eqn:L.
      * destruct (Utf.isTrailSurrogate d) eqn:T'; [|reflexivity].
        destruct (Utf.codePoints r); [|reflexivity].
        cbn [flat_map URI.prepend].
        change (escape (Utf.pairToCodePoint c d))
          with (if URI.isUnescaped (Utf.pairToCodePoint c d)
                then [Utf.pairToCodePoint c d]
                else URI.escapeCodePoint (Utf.pairToCodePoint c d)).
        replace (URI.isUnescaped (Utf.pairToCodePoint c d)) with false; [reflexivity|].
        unfold URI.isUnescaped, URI.isAlnum, Utf.pairToCodePoint,
          Utf.isLeadSurrogate, Utf.isTrailSurrogate in *. lia.
      * destruct (Utf.codePoints (d :: r)); [|reflexivity].
        cbn [flat_map URI.prepend].
        change (escape c) with (if URI.isUnescaped c then [c] else URI.escapeCodePoint c).
        rewrite U. reflexivity.
Qed.

Lemma hexValue_hexChar d : d < 16 -> URI.hexValue (URI.hexChar d) = Some d.
Proof.
  intros H. unfold URI.hexChar. destruct (d <? 10) eqn:E; unfold URI.hexValue.
  - replace ((48 <=? 48 + d) && (48 + d <=? 57)) with true by lia. f_equal. lia.
  - replace ((48 <=? 55 + d) && (55 + d <=? 57)) with false by lia.
    replace ((65 <=? 55 + d) && (55 + d <=? 70)) with true by lia. f_equal. lia.
Qed.

Lemma hexChar_not_u d : d < 16 -> (URI.hexChar d =? 117) = false.
Proof. intros H. unfold URI.hexChar. destruct (d <? 10) eqn:E; lia. Qed.

Lemma hex2_hexChar b :
  b < 256 -> URI.hex2 (URI.hexChar (b / 16)) (URI.hexChar (b mod 16)) = Some b.
Proof.
  intros H. unfold URI.hex2. rewrite !hexValue_hexChar by lia. f_equal. lia.
Qed.

Lemma unescape_octet b rest :
  b < 256 -> URI.unescape (URI.escapeOctet b ++ rest) = b :: URI.unescape rest.
Proof.
  intros H. unfold URI.escapeOctet.
  pose proof (hex2_hexChar b H) as H2. pose proof (hexChar_not_u (b / 16)) as NU.
  remember (URI.hexChar (b / 16)) as h1. remember (URI.hexChar (b mod 16)) as h2.
  assert (NU' : (h1 =? 117) = false) by (apply NU; lia).
  cbn [app].
  destruct rest as [|x1 [|x2 [|x3 rest]]];
    cbn [URI.unescape]; cbn [N.eqb Pos.eqb negb]; rewrite ?NU', H2; reflexivity.
Qed.

Lemma unescape_octets bytes rest :
  Forall octet bytes ->
  URI.unescape (flat_map URI.escapeOctet bytes ++ rest) = bytes ++ URI.unescape rest.
Proof.
  induction 1 as [|b bs Hb F IH]; [reflexivity|].
  cbn [flat_map]. rewrite <- app_assoc, unescape_octet by exact Hb. now rewrite IH.
Qed.

Lemma unescape_escape cp rest :
  cp < 1114112 ->
  URI.unescape (escape cp ++ rest) = Utf.utf8Encode cp ++ URI.unescape rest.
Proof.
  intros H. unfold escape. destruct (URI.isUnescaped cp) eqn:U.
  - apply unescaped_ascii in U. destruct U as [U1 U2].
    unfold Utf.utf8Encode. replace (cp <? 128) with true by lia.
    cbn [app URI.unescape]. replace (cp =? 37) with false by lia. reflexivity.
  - unfold URI.escapeCodePoint. apply unescape_octets. now apply utf8Encode_octets.
Qed.

Lemma unescape_escapes cps :
  Forall scalar cps ->
  URI.unescape (flat_map escape cps) = flat_map Utf.utf8Encode cps.
Proof.
  induction 1 as [|cp cps Hcp F IH]; [reflexivity|].
  cbn [flat_map]. rewrite unescape_escape by now apply scalar_bound. now rewrite IH.
Qed.

Lemma utf8_octets cps : Forall scalar cps -> Forall octet (flat_map Utf.utf8Encode cps).
Proof.
  induction 1 as [|cp cps Hcp F IH]; [constructor|].
  cbn [flat_map]. apply Forall_app. split; [|assumption].
  apply utf8Encode_octets. now apply scalar_bound.
Qed.

(** The body of the try block, on a string of 16-bit code units: the
    base64 of the UTF-8 octets, or a URIError for an unpaired surrogate. *)
Lemma base64OfText_codePoints s :
  wf_string s ->
  base64OfText s
  = match Utf.codePoints s with
    | Some cps => Return (Base64.encode (flat_map Utf.utf8Encode cps))
    | None => Throw URIError
    end.
Proof.
  intros W. unfold base64OfText. rewrite encodeURIComponent_codePoints.
  destruct (Utf.codePoints s) as [cps|] eqn:E; [|reflexivity].
  destruct (codePoints_utf16 s W cps E) as [F _].
  rewrite unescape_escapes by assumption. apply btoa_octets. now apply utf8_octets.
Qed.

(** The data URL of a base64 text of a string carries that string. *)
Lemma dataUrlText_base64OfText s b :
  wf_string s -> base64OfText s = Return b -> dataUrlText (dataUrlPrefix ++ b) = Some s.
Proof.
  intros W E. rewrite base64OfText_codePoints in E by assumption.
  destruct (Utf.codePoints s) as [cps|] eqn:C; [|discriminate].
  injection E as <-. destruct (codePoints_utf16 s W cps C) as [F J].
  unfold dataUrlText. fold dataUrlPrefix. rewrite RegExpFacts.stripPrefix_app.
  rewrite decode_encode by now apply utf8_octets.
  unfold Utf8Decode.decode. rewrite codePoints_utf8 by assumption. now rewrite J.
Qed.
End EncodingFacts.

(** ** The preview data URL *)

Lemma wf_string_check s : forallb (fun c => c <? 65536) s = true -> wf_string s.
Proof.
  intros H. apply Forall_forall. intros c Hc.
  rewrite forallb_forall in H. specialize (H c Hc). unfold wf_char. lia.
Qed.

Lemma svgPreviewUrl_eq s :
  App.svgPreviewUrl s
  = match s with
    | [] => ([], Return [])
    | _ => match base64OfText s with
           | Return b => ([], Return (dataUrlPrefix ++ b))
           | Throw e =>
               ([ConsoleError (lit "Error creating SVG data URL") (Some e)], Return [])
           end
    end.
Proof.
  destruct s as [|c r]; [reflexivity|].
  unfold App.svgPreviewUrl, base64OfText. cbn [Str.truthy negb].
  destruct (URI.encodeURIComponent (c :: r)) as [escaped|e]; [|reflexivity].
  unfold Monad.pure, Monad.bind, Monad.tryCatch.
  destruct (Base64.btoa (URI.unescape escaped)); reflexivity.
Qed.

(** C9: for every colorized text (a string of 16-bit code units) the
    computation of the preview URL returns and does not throw. The URL is
    empty for the empty text and where the encoding fails, which is the case
    exactly for a text with an unpaired surrogate; otherwise the URL is
    the data URL prefix followed by the base64 text, and its payload, read
    as base64 and then as UTF-8, is the colorized text. *)
Theorem svgPreviewUrl_spec :
  forall previewRenderSvg : jsstring,
    wf_string previewRenderSvg ->
    exists url,
      Monad.completion (App.svgPreviewUrl previewRenderSvg) = Return url
      /\ (previewRenderSvg = [] -> url = [])
      /\ (forall e, base64OfText previewRenderSvg = Throw e -> url = [])
      /\ ((exists e, base64OfText previewRenderSvg = Throw e)
          <-> Utf.isWellFormed previewRenderSvg = false)
      /\ (previewRenderSvg <> [] ->
          forall base64, base64OfText previewRenderSvg = Return base64 ->
                         url = dataUrlPrefix ++ base64
                         /\ dataUrlText url = Some previewRenderSvg).
Proof.
  intros s W. rewrite svgPreviewUrl_eq.
  assert (F : (exists e, base64OfText s = Throw e) <-> Utf.isWellFormed s = false).
  { rewrite EncodingFacts.base64OfText_codePoints by assumption. unfold Utf.isWellFormed.
    destruct (Utf.codePoints s); split; try discriminate; eauto.
    intros [e E]. discriminate E. }
  destruct s as [|c r].
  - exists []. split; [reflexivity|]. split; [reflexivity|]. split; [reflexivity|].
    split; [exact F|]. intros NE. congruence.
  - destruct (base64OfText (c :: r)) as [b|e] eqn:E.
    + exists (dataUrlPrefix ++ b). split; [reflexivity|]. split; [discriminate|].
      split; [discriminate|]. split; [exact F|].
      intros _ b' E'. injection E' as <-. split; [reflexivity|].
      now apply EncodingFacts.dataUrlText_base64OfText.
    + exists []. split; [reflexivity|]. split; [reflexivity|]. split; [reflexivity|].
      split; [exact F|]. intros _ b' E'. discriminate E'.
Qed.

Lemma svgPreviewUrl_spec_witness :
  exists url,
    Monad.completion (App.svgPreviewUrl (qlit "<svg fill='#ff0000'>" ++ [233; 55357; 56832]))
    = Return url
    /\ dataUrlText url = Some (qlit "<svg fill='#ff0000'>" ++ [233; 55357; 56832]).
Proof.
  destruct (svgPreviewUrl_spec (qlit "<svg fill='#ff0000'>" ++ [233; 55357; 56832]))
    as [url [R [_ [_ [_ D]]]]].
  - apply wf_string_check. reflexivity.
  - exists url. split; [exact R|].
    refine (proj2 (D _ (Base64.encode
                          (flat_map Utf.utf8Encode
                             (map N_of_ascii (list_ascii_of_string "<svg fill=")
                              ++ 34 :: map N_of_ascii (list_ascii_of_string "#ff0000")
                              ++ [34; 62; 233; 128512]))) _)).
    + discriminate.
    + vm_compute. reflexivity.
Defined.

(** The second end-to-end scenario of the specification: the colour
    #ff0000 on the base output of the first; the final text has that fill
    on the root, and the data URL carries exactly the colorized text. *)
Example preview_scenario :
  let base := qlit "<svg xmlns='http://www.w3.org/2000/svg'><path d='M0 0'/></svg>" in
  let colorized := App.previewRenderSvg base (lit "#ff0000") in
  colorized
  = qlit "<svg xmlns='http://www.w3.org/2000/svg' fill='#ff0000'><path d='M0 0'/></svg>"
  /\ App.outputSvg true colorized base = colorized
  /\ exists url, App.svgPreviewUrl colorized = ([], Return url)
                 /\ dataUrlText url = Some colorized.
Proof.
  cbv zeta. split; [vm_compute; reflexivity|]. split; [reflexivity|].
  eexists. split; vm_compute; reflexivity.
Qed.

(** An unpaired surrogate: the encoding fails, the URL is empty and the
    failure is on the diagnostic channel. *)
Example svgPreviewUrl_unpaired_surrogate :
  App.svgPreviewUrl (lit "<svg>" ++ [55357])
  = ([ConsoleError (lit "Error creating SVG data URL") (Some URIError)], Return []).
Proof. vm_compute. reflexivity. Qed.

(** * More of the code *)

(** ** What the transformer removes and what it keeps *)

Module PrunedFacts.
Import Dom DomFacts.

Lemma filter_all {A} (f : A -> bool) (l : list A) :
  (forall x, In x l -> f x = true) -> filter f l = l.
Proof.
  induction l as [|x l IH]; intros H; cbn [filter]; [reflexivity|].
  rewrite (H x (or_introl eq_refl)). f_equal. apply IH. intros y Hy. apply H. now right.
Qed.

Lemma without_nil attrs : without [] attrs = attrs.
Proof. unfold without. apply filter_all. reflexivity. Qed.

Lemma without_without n1 n2 attrs :
  without n2 (without n1 attrs) = without (n1 ++ n2) attrs.
Proof.
  unfold without. induction attrs as [|a r IH]; simpl; [reflexivity|].
  rewrite existsb_app.
  destruct (existsb (jseqb (fst a)) n1); simpl; [exact IH|].
  destruct (existsb (jseqb (fst a)) n2); simpl; now rewrite IH.
Qed.

Lemma without_ext n1 n2 attrs :
  (forall n, existsb (jseqb n) n1 = existsb (jseqb n) n2) ->
  without n1 attrs = without n2 attrs.
Proof.
  intros H. unfold without. apply filter_ext. intros a. now rewrite H.
Qed.

Lemma without_absent name attrs :
  existsb (jseqb name) (map fst attrs) = false -> without [name] attrs = attrs.
Proof.
  intros H. unfold without. apply filter_all. intros [n v] I.
  cbn [fst existsb]. rewrite orb_false_r.
  destruct (jseqb n name) eqn:E; [|reflexivity].
  apply jseqb_eq in E; subst n.
  assert (X : existsb (jseqb name) (map fst attrs) = true).
  { apply existsb_jseqb_in. apply in_map_iff. exists (name, v). now split. }
  congruence.
Qed.

(** On distinct names, removing the first attribute of a name removes
    every attribute of that name and nothing else. *)
Lemma removeFirst_without name attrs :
  distinct (map fst attrs) = true -> removeFirst name attrs = without [name] attrs.
Proof.
  induction attrs as [|[n v] r IH]; simpl; [reflexivity|].
  intros H. apply andb_true_iff in H. destruct H as [H1 H2].
  unfold without. simpl. rewrite orb_false_r.
  destruct (jseqb n name) eqn:E; simpl.
  - apply jseqb_eq in E; subst n. symmetry. apply without_absent.
    now apply negb_true_iff in H1.
  - f_equal. now apply IH.
Qed.

Lemma without_fst_incl names attrs x :
  In x (map fst (without names attrs)) -> In x (map fst attrs).
Proof.
  unfold without. induction attrs as [|a r IH]; simpl; [auto|].
  destruct (negb (existsb (jseqb (fst a)) names)); simpl; [|auto]. intros [H|H]; auto.
Qed.

Lemma distinct_without names attrs :
  distinct (map fst attrs) = true -> distinct (map fst (without names attrs)) = true.
Proof.
  induction attrs as [|a r IH]; simpl; [reflexivity|].
  intros H. apply andb_true_iff in H. destruct H as [H1 H2].
  unfold without in *. simpl.
  destruct (negb (existsb (jseqb (fst a)) names)); simpl; [|auto].
  rewrite IH by assumption. rewrite andb_true_r.
  apply negb_true_iff. apply negb_true_iff in H1.
  destruct (existsb (jseqb (fst a)) (map fst (filter _ r))) eqn:E; [|reflexivity].
  apply existsb_jseqb_in, without_fst_incl, existsb_jseqb_in in E. congruence.
Qed.

Lemma rootAttrs_without options a :
  distinct (map fst a) = true ->
  rootAttrs options a
  = without ((if removeXmlns options then [lit "xmlns"] else [])
             ++ (if removeWidth options then [lit "width"] else [])
             ++ (if removeHeight options then [lit "height"] else [])) a.
Proof.
  intros D. unfold rootAttrs.
  destruct (removeXmlns options), (removeWidth options), (removeHeight options);
    cbn [app];
    repeat (rewrite removeFirst_without
             by (repeat apply distinct_without; repeat apply distinct_removeFirst;
                 assumption));
    rewrite ?without_without; cbn [app]; rewrite ?without_nil; reflexivity.
Qed.

Lemma deep_ext g h e :
  wellFormed e = true ->
  (forall a, distinct (map fst a) = true -> g a = h a) ->
  deep g e = deep h e.
Proof.
  intros W H. induction e as [t a cs IH] using Element_tree_ind.
  apply wellFormed_unfold in W. destruct W as [D F]. cbn [deep].
  rewrite (H a D). f_equal. apply map_ext_Forall.
  rewrite Forall_forall in *. intros c Hc. specialize (IH c Hc). specialize (F c Hc).
  destruct c; [|reflexivity]. now rewrite IH.
Qed.

Lemma deep_id g e : (forall a, g a = a) -> deep g e = e.
Proof.
  intros H. induction e as [t a cs IH] using Element_tree_ind. cbn [deep].
  rewrite H. f_equal. rewrite <- (map_id cs) at 2. apply map_ext_Forall.
  rewrite Forall_forall in *. intros c Hc. specialize (IH c Hc).
  destruct c; [|reflexivity]. now rewrite IH.
Qed.

Lemma deep_deep g h e : deep g (deep h e) = deep (fun a => g (h a)) e.
Proof.
  induction e as [t a cs IH] using Element_tree_ind. cbn [deep]. f_equal.
  rewrite map_map. apply map_ext_Forall.
  rewrite Forall_forall in *. intros c Hc. specialize (IH c Hc).
  destruct c; [|reflexivity]. now rewrite IH.
Qed.

Lemma deep_ext_all g h e : (forall a, g a = h a) -> deep g e = deep h e.
Proof.
  intros H. induction e as [t a cs IH] using Element_tree_ind. cbn [deep].
  rewrite H. f_equal. apply map_ext_Forall.
  rewrite Forall_forall in *. intros c Hc. specialize (IH c Hc).
  destruct c; [|reflexivity]. now rewrite IH.
Qed.

Lemma wellFormed_deep_without names e :
  wellFormed e = true -> wellFormed (deep (without names) e) = true.
Proof.
  induction e as [t a cs IH] using Element_tree_ind. intros W.
  apply wellFormed_unfold in W. destruct W as [D F]. cbn [deep].
  apply wellFormed_unfold. split; [now apply distinct_without|].
  rewrite Forall_forall in *. intros c Hc. apply in_map_iff in Hc.
  destruct Hc as [c0 [<- Hc0]]. specialize (IH c0 Hc0). specialize (F c0 Hc0).
  destruct c0; [now apply IH|exact I].
Qed.

(** The mutated root is the parsed root without the attributes the options
    name. *)
Lemma mutated_pruned options e :
  wellFormed e = true -> mutated options e = pruned options e.
Proof.
  intros W. rewrite MutatedFacts.mutated_eq. destruct e as [t a cs].
  apply wellFormed_unfold in W. destruct W as [D F].
  unfold pruned, rootNames, descendantNames. cbn [onAttrs].
  rewrite (rootAttrs_without options a D).
  destruct (removeClasses options); cbn [deep].
  - rewrite removeFirst_without by now apply distinct_without.
    rewrite without_without, <- !app_assoc. f_equal.
    apply map_ext_Forall. rewrite Forall_forall in *. intros c Hc. specialize (F c Hc).
    destruct c as [e'|d]; [|reflexivity]. cbn [deepNode]. f_equal.
    apply deep_ext; [assumption|]. intros a0 D0. now apply removeFirst_without.
  - rewrite !app_nil_r. f_equal.
    rewrite <- (map_id cs) at 1. apply map_ext. intros [e'|d]; [|reflexivity].
    cbn [deepNode]. f_equal. symmetry. apply deep_id. apply without_nil.
Qed.

Lemma wellFormed_pruned options e :
  wellFormed e = true -> wellFormed (pruned options e) = true.
Proof.
  destruct e as [t a cs]. intros W.
  apply wellFormed_unfold in W. destruct W as [D F]. unfold pruned.
  apply wellFormed_unfold. split; [now apply distinct_without|].
  rewrite Forall_forall in *. intros c Hc. apply in_map_iff in Hc.
  destruct Hc as [c0 [<- Hc0]]. specialize (F c0 Hc0).
  destruct c0; [now apply wellFormed_deep_without|exact I].
Qed.

Lemma rootNames_both o1 o2 n :
  existsb (jseqb n) (rootNames o1 ++ rootNames o2)
  = existsb (jseqb n) (rootNames (bothOptions o1 o2)).
Proof.
  unfold rootNames, bothOptions. cbn [removeClasses removeWidth removeHeight removeXmlns].
  destruct (removeXmlns o1), (removeXmlns o2), (removeWidth o1), (removeWidth o2),
    (removeHeight o1), (removeHeight o2), (removeClasses o1), (removeClasses o2);
    cbn [app orb existsb]; btauto.
Qed.

Lemma descendantNames_both o1 o2 n :
  existsb (jseqb n) (descendantNames o1 ++ descendantNames o2)
  = existsb (jseqb n) (descendantNames (bothOptions o1 o2)).
Proof.
  unfold descendantNames, bothOptions. cbn [removeClasses].
  destruct (removeClasses o1), (removeClasses o2); cbn [app orb existsb]; btauto.
Qed.

Lemma pruned_pruned o1 o2 e :
  pruned o2 (pruned o1 e) = pruned (bothOptions o1 o2) e.
Proof.
  destruct e as [t a cs]. unfold pruned. rewrite without_without.
  rewrite (without_ext _ _ a (rootNames_both o1 o2)). f_equal.
  rewrite map_map. apply map_ext. intros [e'|d]; [|reflexivity].
  cbn [deepNode]. f_equal. rewrite deep_deep. apply deep_ext_all.
  intros a0. rewrite without_without. apply without_ext. apply descendantNames_both.
Qed.

Lemma mutated_composes_aux o1 o2 e :
  wellFormed e = true ->
  mutated o2 (mutated o1 e) = mutated (bothOptions o1 o2) e
  /\ mutated o2 (mutated o1 e) = pruned (bothOptions o1 o2) e.
Proof.
  intros W.
  assert (C : mutated o2 (mutated o1 e) = pruned (bothOptions o1 o2) e).
  { rewrite (mutated_pruned o1 e W).
    rewrite mutated_pruned by now apply wellFormed_pruned.
    apply pruned_pruned. }
  split; [|exact C]. rewrite C. symmetry. now apply mutated_pruned.
Qed.

Lemma bothOptions_comm_pruned o1 o2 e :
  pruned (bothOptions o1 o2) e = pruned (bothOptions o2 o1) e.
Proof.
  destruct e as [t a cs]. unfold pruned. f_equal.
  - apply without_ext. intros n.
    rewrite <- !rootNames_both, !existsb_app. apply orb_comm.
  - apply map_ext. intros [e'|d]; [|reflexivity]. cbn [deepNode]. f_equal.
    apply deep_ext_all. intros a0. apply without_ext. intros n.
    rewrite <- !descendantNames_both, !existsb_app. apply orb_comm.
Qed.
End PrunedFacts.

Section TransformerMore.
Context {host : Host}.
Import Monad.

(** X4: for a valid SVG input, the tree the transformer serializes is the
    parsed tree without the root's xmlns, width and height attributes and
    without the class attributes of the root and of every descendant, each
    only where its option is set; every other attribute stays, in its
    place, and so do the tag names, the children and the character data.
    The output is the text the host serializer writes for that tree. *)
Theorem optimizeSvgBase_removes_exactly :
  forall (svgString : jsstring) (options : SvgOptions) (doc : Document),
    Str.trim svgString <> [] ->
    parseFromString svgString svgMime = Return doc ->
    invalid doc = false ->
    Dom.wellFormed (documentElement doc) = true ->
    mutated options (documentElement doc) = pruned options (documentElement doc)
    /\ forall text,
        serializeToString (pruned options (documentElement doc)) = Return text ->
        completion (optimizeSvgBase svgString options) = Return text.
Proof.
  intros svgString options doc NE P I W.
  pose proof (PrunedFacts.mutated_pruned options (documentElement doc) W) as E.
  split; [exact E|]. intros text S. rewrite <- E in S.
  now apply (optimizeSvgBase_output _ _ doc).
Qed.

(** X5: on a well-formed tree the removals of two option records compose:
    mutating with the one and then with the other gives the tree that one
    mutation with every removal of either gives, in either order. *)
Theorem mutated_composes :
  forall (o1 o2 : SvgOptions) (e : Element),
    Dom.wellFormed e = true ->
    mutated o2 (mutated o1 e) = mutated (bothOptions o1 o2) e
    /\ mutated o2 (mutated o1 e) = mutated o1 (mutated o2 e).
Proof.
  intros o1 o2 e W. split.
  - exact (proj1 (PrunedFacts.mutated_composes_aux o1 o2 e W)).
  - rewrite (proj2 (PrunedFacts.mutated_composes_aux o1 o2 e W)).
    rewrite (proj2 (PrunedFacts.mutated_composes_aux o2 o1 e W)).
    apply PrunedFacts.bothOptions_comm_pruned.
Qed.

(** X6: two passes of the transformer are one pass with every removal of
    either, where the host reads the text it wrote in the first pass back
    to the tree it wrote it for: the second pass and the single pass give
    the text of the same tree. *)
Theorem optimizeSvgBase_two_passes :
  forall (svgString : jsstring) (o1 o2 : SvgOptions) (doc : Document)
         (first : jsstring),
    Str.trim svgString <> [] ->
    parseFromString svgString svgMime = Return doc ->
    invalid doc = false ->
    Dom.wellFormed (documentElement doc) = true ->
    serializeToString (mutated o1 (documentElement doc)) = Return first ->
    Str.trim first <> [] ->
    parseFromString first svgMime = Return (mkDocument (mutated o1 (documentElement doc))) ->
    completion (optimizeSvgBase svgString o1) = Return first
    /\ forall text,
        serializeToString (mutated (bothOptions o1 o2) (documentElement doc)) = Return text ->
        completion (optimizeSvgBase first o2) = Return text
        /\ completion (optimizeSvgBase svgString (bothOptions o1 o2)) = Return text.
Proof.
  intros svgString o1 o2 doc first NE P I W S1 NE1 P1. split.
  - now apply (optimizeSvgBase_output _ _ doc).
  - intros text S. split.
    + apply (optimizeSvgBase_output _ _ _ _ NE1 P1).
      * now rewrite MutatedFacts.invalid_mutated.
      * cbn [documentElement].
        now rewrite (proj1 (PrunedFacts.mutated_composes_aux o1 o2 (documentElement doc) W)).
    + now apply (optimizeSvgBase_output _ _ doc).
Qed.
End TransformerMore.

Lemma optimizeSvgBase_removes_exactly_witness :
  Monad.completion (optimizeSvgBase (host := RefHost.host) scenarioSvg defaultOptions)
  = Return (qlit "<svg xmlns='http://www.w3.org/2000/svg'><path d='M0 0'/></svg>").
Proof.
  refine (proj2 (optimizeSvgBase_removes_exactly (host := RefHost.host) scenarioSvg
                   defaultOptions (RefHost.parse scenarioSvg) _ _ _ _) _ _).
  - vm_compute. discriminate.
  - reflexivity.
  - vm_compute. reflexivity.
  - vm_compute. reflexivity.
  - vm_compute. reflexivity.
Defined.

Lemma mutated_composes_witness :
  mutated (withRemoveXmlns defaultOptions true)
          (mutated (withRemoveClasses defaultOptions false)
                   (documentElement (RefHost.parse scenarioSvg)))
  = mutated (withRemoveClasses defaultOptions false)
            (mutated (withRemoveXmlns defaultOptions true)
                     (documentElement (RefHost.parse scenarioSvg))).
Proof.
  refine (proj2 (mutated_composes (withRemoveClasses defaultOptions false)
                   (withRemoveXmlns defaultOptions true)
                   (documentElement (RefHost.parse scenarioSvg)) _)).
  vm_compute. reflexivity.
Defined.

Lemma optimizeSvgBase_two_passes_witness :
  Monad.completion
    (optimizeSvgBase (host := RefHost.host)
       (qlit "<svg xmlns='http://www.w3.org/2000/svg' class='icon'><path class='p' d='M0 0'/></svg>")
       (withRemoveXmlns defaultOptions true))
  = Return (qlit "<svg><path d='M0 0'/></svg>").
Proof.
  refine (proj1 (proj2 (optimizeSvgBase_two_passes (host := RefHost.host) scenarioSvg
                          (withRemoveClasses defaultOptions false)
                          (withRemoveXmlns defaultOptions true)
                          (RefHost.parse scenarioSvg)
                          (qlit "<svg xmlns='http://www.w3.org/2000/svg' class='icon'><path class='p' d='M0 0'/></svg>")
                          _ _ _ _ _ _ _) _ _)).
  - vm_compute. discriminate.
  - reflexivity.
  - vm_compute. reflexivity.
  - vm_compute. reflexivity.
  - vm_compute. reflexivity.
  - vm_compute. discriminate.
  - vm_compute. reflexivity.
  - vm_compute. reflexivity.
Defined.

(** ** More on the size list *)

Module SizeMore.
Import Str Num.

Lemma split_append sep a b : split sep (a ++ sep :: b) = split sep a ++ split sep b.
Proof.
  induction a as [|c r IH]; cbn [app split].
  - rewrite N.eqb_refl. reflexivity.
  - destruct (c =? sep); [now rewrite IH|].
    rewrite IH. pose proof (StrFacts.split_not_nil sep r) as NE.
    destruct (split sep r) as [|t ts]; [congruence|reflexivity].
Qed.

Lemma decimalDigits_value fuel n acc :
  n < 2 ^ N.of_nat fuel ->
  readDigits 0 (NumOps.decimalDigits fuel n acc) = readDigits (Z.of_N n) acc.
Proof.
  revert n acc. induction fuel as [|fuel IH]; intros n acc H.
  - cbn [NumOps.decimalDigits]. replace n with 0 by (cbn in H; lia). reflexivity.
  - cbn [NumOps.decimalDigits].
    assert (B : n / 10 < 2 ^ N.of_nat fuel).
    { rewrite Nat2N.inj_succ, N.pow_succ_r' in H.
      apply N.Div0.div_lt_upper_bound. lia. }
    destruct (N.eqb_spec (n / 10) 0) as [E|E].
    + unfold readDigits. cbn [fold_left]. f_equal. lia.
    + rewrite IH by exact B. unfold readDigits. cbn [fold_left]. f_equal. lia.
Qed.

Lemma decimalDigits_digits fuel n acc :
  Forall (fun c => RegExp.isDigit c = true) acc ->
  Forall (fun c => RegExp.isDigit c = true) (NumOps.decimalDigits fuel n acc).
Proof.
  revert n acc. induction fuel as [|fuel IH]; intros n acc F; cbn [NumOps.decimalDigits];
    [assumption|].
  assert (F' : Forall (fun c => RegExp.isDigit c = true) ((48 + n mod 10) :: acc)).
  { constructor; [|assumption]. unfold RegExp.isDigit. lia. }
  destruct (n / 10 =? 0); [assumption|now apply IH].
Qed.

Lemma decimalDigits_not_nil fuel n acc : NumOps.decimalDigits (S fuel) n acc <> [].
Proof.
  cbn [NumOps.decimalDigits]. destruct (n / 10 =? 0); [discriminate|].
  generalize (n / 10). revert acc. generalize (48 + n mod 10).
  induction fuel as [|fuel IH]; intros d acc m; cbn [NumOps.decimalDigits]; [discriminate|].
  destruct (m / 10 =? 0); [discriminate|apply IH].
Qed.

Lemma toDecimal_value n : decimalValue (NumOps.toDecimal n) = Z.of_N n.
Proof.
  unfold NumOps.toDecimal.
  change (decimalValue ?x) with (readDigits 0 x).
  rewrite decimalDigits_value; [reflexivity|].
  rewrite Nat2N.inj_succ, N2Nat.id.
  destruct n as [|p]; [reflexivity|].
  apply N.log2_spec. reflexivity.
Qed.

Lemma toDecimal_digits n : Forall (fun c => RegExp.isDigit c = true) (NumOps.toDecimal n).
Proof. apply decimalDigits_digits. constructor. Qed.

Lemma toDecimal_not_nil n : NumOps.toDecimal n <> [].
Proof. apply decimalDigits_not_nil. Qed.

Lemma trimStart_solid s :
  Forall (fun c => isWhiteSpace c = false) s -> trimStart s = s.
Proof. intros F. destruct F as [|c r Hc F]; [reflexivity|]. simpl. now rewrite Hc. Qed.

(** A text without white space is its own trimmed form. *)
Lemma trim_solid s : Forall (fun c => isWhiteSpace c = false) s -> trim s = s.
Proof.
  intros F. unfold trim, trimEnd. rewrite (trimStart_solid s F).
  rewrite trimStart_solid; [apply rev_involutive|].
  apply Forall_forall. intros c Hc. apply in_rev in Hc.
  rewrite Forall_forall in F. now apply F.
Qed.

Lemma digits_solid ds :
  Forall (fun c => RegExp.isDigit c = true) ds ->
  Forall (fun c => isWhiteSpace c = false) ds.
Proof.
  intros F. eapply Forall_impl; [|exact F]. intros c. apply SizeFacts.digit_not_space.
Qed.

Lemma digits_commaFree ds :
  Forall (fun c => RegExp.isDigit c = true) ds -> commaFree ds.
Proof.
  intros F I. rewrite Forall_forall in F. specialize (F 44 I). discriminate F.
Qed.

Lemma sizeOfToken_decimal n rest :
  0 < n <= 9007199254740992 -> startsNoDigit rest ->
  Forall (fun c => isWhiteSpace c = false) rest ->
  sizeOfToken (NumOps.toDecimal n ++ rest) = [Num (Z.of_N n)].
Proof.
  intros P R F. unfold sizeOfToken.
  rewrite trim_solid
    by (apply Forall_app; split; [apply digits_solid, toDecimal_digits|assumption]).
  rewrite (SizeFacts.parseInt_leading_digits _ _ (toDecimal_not_nil n) (toDecimal_digits n) R).
  rewrite toDecimal_value.
  rewrite SizeFacts.fromInteger_exact
    by (change (2 ^ 53)%Z with 9007199254740992%Z; lia).
  replace (0 <? Z.of_N n)%Z with true by lia. reflexivity.
Qed.

Lemma decimalDigits_length fuel : forall n acc m,
  n < 10 ^ N.of_nat (S m) ->
  (List.length (NumOps.decimalDigits fuel n acc) <= S m + List.length acc)%nat.
Proof.
  induction fuel as [|fuel IH]; intros n acc m B; cbn [NumOps.decimalDigits]; [lia|].
  destruct (N.eqb_spec (n / 10) 0) as [E|E]; [cbn [List.length]; lia|].
  destruct m as [|m].
  - exfalso. apply E. apply N.div_small. exact B.
  - eapply Nat.le_trans; [apply (IH _ _ m)|cbn [List.length]; lia].
    rewrite Nat2N.inj_succ, N.pow_succ_r' in B.
    apply N.Div0.div_lt_upper_bound. exact B.
Qed.

(** Up to 2^53 the text of a positive Number is the decimal digits of its
    value. *)
Lemma toString_positive z :
  (0 < z <= 9007199254740992)%Z -> NumOps.toString (Num z) = NumOps.toDecimal (Z.to_N z).
Proof.
  intros P. unfold NumOps.toString, NumOps.positiveToString.
  replace (z =? 0)%Z with false by lia. replace (z <? 0)%Z with false by lia.
  change (2 ^ 53)%Z with 9007199254740992%Z.
  replace (z <=? 9007199254740992)%Z with true by lia.
  assert (L : (List.length (NumOps.toDecimal (Z.to_N z)) <= 21)%nat).
  { unfold NumOps.toDecimal.
    pose proof (decimalDigits_length (S (N.to_nat (N.log2 (Z.to_N z)))) (Z.to_N z) [] 20) as H.
    cbn [List.length] in H. rewrite Nat.add_0_r in H. apply H.
    change (10 ^ N.of_nat 21) with 1000000000000000000000. lia. }
  unfold NumOps.digitCount.
  destruct (Z.leb_spec (Z.of_nat (List.length (NumOps.toDecimal (Z.to_N z)))) 21);
    [reflexivity|lia].
Qed.
End SizeMore.

(** X7: the size list of two texts joined by a comma is the size list of
    the first followed by the size list of the second. *)
Theorem parsedSizes_append :
  forall a b : jsstring,
    App.parsedSizes (a ++ 44 :: b) = App.parsedSizes a ++ App.parsedSizes b.
Proof.
  intros a b. unfold App.parsedSizes.
  now rewrite SizeMore.split_append, map_app, filter_app.
Qed.

(** X8: positive integers, up to the largest one a Number holds exactly,
    written in decimal and joined by commas, parse to themselves; and the
    caption the view puts under a preview of such a size, the size
    followed by px, parses back to that size. *)
Theorem parsedSizes_of_printed_sizes :
  forall zs : list Z,
    Forall (fun z => 0 < z <= 9007199254740991)%Z zs ->
    App.parsedSizes (Str.join 44 (map (fun z => NumOps.toString (Num z)) zs)) = map Num zs
    /\ forall z, In z zs ->
                 App.parsedSizes (NumOps.toString (Num z) ++ lit "px") = [Num z].
Proof.
  intros zs F.
  assert (T : forall z, (0 < z <= 9007199254740991)%Z -> forall rest,
                startsNoDigit rest -> Forall (fun c => Str.isWhiteSpace c = false) rest ->
                sizeOfToken (NumOps.toString (Num z) ++ rest) = [Num z]).
  { intros z P rest R S. rewrite SizeMore.toString_positive by lia.
    rewrite SizeMore.sizeOfToken_decimal by (assumption || lia). f_equal. f_equal. lia. }
  split.
  - destruct zs as [|z0 zs0]; [reflexivity|].
    unfold App.parsedSizes. rewrite SizeFacts.parsedSizes_tokens.
    rewrite StrFacts.split_join.
    + induction F as [|z zs P F IH]; [reflexivity|].
      cbn [map flat_map].
      specialize (T z P [] I (Forall_nil _)). rewrite app_nil_r in T. rewrite T.
      cbn [app]. f_equal. exact IH.
    + discriminate.
    + apply Forall_forall. intros t Ht. apply in_map_iff in Ht.
      destruct Ht as [z [<- Hz]]. rewrite Forall_forall in F. pose proof (F z Hz) as P.
      cbv beta in P. rewrite SizeMore.toString_positive by lia.
      apply SizeMore.digits_commaFree, SizeMore.toDecimal_digits.
  - intros z Hz. rewrite Forall_forall in F. pose proof (F z Hz) as P. cbv beta in P.
    unfold App.parsedSizes. rewrite SizeFacts.parsedSizes_tokens.
    rewrite StrFacts.split_token.
    + cbn [flat_map]. rewrite app_nil_r. apply T; [assumption|reflexivity|].
      repeat constructor.
    + intros C. apply in_app_or in C. destruct C as [C|C].
      * rewrite SizeMore.toString_positive in C by lia.
        exact (SizeMore.digits_commaFree _ (SizeMore.toDecimal_digits _) C).
      * simpl in C. intuition discriminate.
Qed.

Lemma parsedSizes_of_printed_sizes_witness :
  App.parsedSizes (lit "24,32,48") = [Num 24; Num 32; Num 48]
  /\ App.parsedSizes (lit "48px") = [Num 48].
Proof.
  assert (F : Forall (fun z => 0 < z <= 9007199254740991)%Z [24; 32; 48]%Z)
    by (repeat constructor; lia).
  split.
  - exact (proj1 (parsedSizes_of_printed_sizes [24; 32; 48]%Z F)).
  - refine (proj2 (parsedSizes_of_printed_sizes [24; 32; 48]%Z F) 48%Z _).
    simpl. auto.
Defined.

(** ** More on the colorized text and the preview URL *)

Module PreviewMore.
Import EncodingFacts.

Lemma getSubstitution_literal matchedText pre post caps c rest :
  c <> 36 ->
  RegExp.getSubstitution matchedText pre post caps (c :: rest)
  = c :: RegExp.getSubstitution matchedText pre post caps rest.
Proof.
  intros NE. cbn [RegExp.getSubstitution].
  destruct (N.eqb_spec c 36); [contradiction|reflexivity].
Qed.

Lemma previewRenderSvg_not_nil base color : base <> [] -> App.previewRenderSvg base color <> [].
Proof.
  intros NE. destruct (RegExp.exec App.svgTagRegex base) as [m|] eqn:X.
  - rewrite (ColorFacts.previewRenderSvg_match base color m X).
    change (lit "<svg" ++ ?x) with (60 :: (lit "svg" ++ x)).
    rewrite getSubstitution_literal by discriminate.
    destruct (RegExp.before m); discriminate.
  - unfold App.previewRenderSvg. destruct base as [|c r]; [congruence|].
    cbn [Str.truthy negb]. unfold RegExp.match_. rewrite X. discriminate.
Qed.

Lemma isBase64Char_alphabet i : i < 64 -> isBase64Char (Base64.alphabet i) = true.
Proof. intros H. unfold isBase64Char. now rewrite value_alphabet. Qed.

Lemma encode_shape bytes :
  Forall octet bytes ->
  forallb isBase64Char (Base64.encode bytes) = true
  /\ (exists k, List.length (Base64.encode bytes) = 4 * k)%nat
  /\ (bytes <> [] -> Base64.encode bytes <> []).
Proof.
  unfold octet. induction bytes as [|a|a b|a b c r IH] using list_ind3; intros F.
  - repeat split; [exists 0%nat; reflexivity|congruence].
  - apply Forall_inv in F. cbn [Base64.encode forallb].
    rewrite !isBase64Char_alphabet by lia.
    repeat split; [exists 1%nat; reflexivity|discriminate].
  - pose proof (Forall_inv F) as Ha. pose proof (Forall_inv (Forall_inv_tail F)) as Hb.
    cbv beta in Ha, Hb. cbn [Base64.encode forallb].
    rewrite !isBase64Char_alphabet by lia.
    repeat split; [exists 1%nat; reflexivity|discriminate].
  - pose proof (Forall_inv F) as Ha. pose proof (Forall_inv (Forall_inv_tail F)) as Hb.
    pose proof (Forall_inv (Forall_inv_tail (Forall_inv_tail F))) as Hc.
    pose proof (Forall_inv_tail (Forall_inv_tail (Forall_inv_tail F))) as Fr.
    cbv beta in Ha, Hb, Hc.
    change (Base64.encode (a :: b :: c :: r))
      with (Base64.alphabet (a / 4) :: Base64.alphabet ((a mod 4) * 16 + b / 16)
            :: Base64.alphabet ((b mod 16) * 4 + c / 64) :: Base64.alphabet (c mod 64)
            :: Base64.encode r).
    destruct (IH Fr) as [C [[k L] _]]. cbn [forallb List.length].
    rewrite !isBase64Char_alphabet by lia. rewrite C, L.
    repeat split; [exists (S k); lia|discriminate].
Qed.

Lemma utf8Encode_not_nil cp : Utf.utf8Encode cp <> [].
Proof.
  unfold Utf.utf8Encode.
  destruct (cp <? 128); [discriminate|]. destruct (cp <? 2048); [discriminate|].
  destruct (cp <? 65536); discriminate.
Qed.

Lemma codePoints_not_nil s cps : s <> [] -> Utf.codePoints s = Some cps -> cps <> [].
Proof.
  destruct s as [|c r]; [congruence|]. intros _. cbn [Utf.codePoints].
  destruct (Utf.isTrailSurrogate c); [discriminate|].
  destruct (Utf.isLeadSurrogate c).
  - destruct r as [|d r']; [discriminate|].
    destruct (Utf.isTrailSurrogate d); [|discriminate].
    destruct (Utf.codePoints r'); [|discriminate]. intros E. injection E as <-. discriminate.
  - destruct (Utf.codePoints r); [|discriminate]. intros E. injection E as <-. discriminate.
Qed.
End PreviewMore.

(** X9: the colorized text is empty for the empty base text only. *)
Theorem previewRenderSvg_empty_iff :
  forall base previewColor : jsstring,
    App.previewRenderSvg base previewColor = [] <-> base = [].
Proof.
  intros base color. split.
  - intros E. destruct base as [|c r]; [reflexivity|].
    exfalso. revert E. apply PreviewMore.previewRenderSvg_not_nil. discriminate.
  - intros ->. reflexivity.
Qed.

(** X10: on a string of 16-bit code units the preview URL is computed in
    one of three ways. The empty text gives the empty URL and no line on
    the diagnostic channel. A text with an unpaired surrogate gives the
    empty URL and one line that reports a URIError; [btoa] never fails
    here. Any other text gives, without a line, the data URL prefix
    followed by a non-empty payload of base64 code units whose length is a
    multiple of four. *)
Theorem svgPreviewUrl_shape :
  forall text : jsstring,
    wf_string text ->
    (text = [] /\ App.svgPreviewUrl text = ([], Return []))
    \/ (Utf.isWellFormed text = false
        /\ App.svgPreviewUrl text
           = ([ConsoleError (lit "Error creating SVG data URL") (Some URIError)], Return []))
    \/ (text <> [] /\ Utf.isWellFormed text = true
        /\ exists payload,
            App.svgPreviewUrl text = ([], Return (dataUrlPrefix ++ payload))
            /\ payload <> []
            /\ forallb isBase64Char payload = true
            /\ exists k, (List.length payload = 4 * k)%nat).
Proof.
  intros text W. rewrite svgPreviewUrl_eq.
  destruct text as [|c r]; [left; split; reflexivity|right].
  rewrite EncodingFacts.base64OfText_codePoints by assumption. unfold Utf.isWellFormed.
  destruct (Utf.codePoints (c :: r)) as [cps|] eqn:E.
  - right. split; [discriminate|]. split; [reflexivity|].
    destruct (EncodingFacts.codePoints_utf16 _ W cps E) as [F _].
    destruct (PreviewMore.encode_shape _ (EncodingFacts.utf8_octets cps F)) as [C [L NE]].
    eexists. split; [reflexivity|]. split; [|split; assumption].
    apply NE.
    assert (N : cps <> [])
      by (apply (PreviewMore.codePoints_not_nil (c :: r)); [discriminate|exact E]).
    destruct cps as [|cp cps']; [congruence|]. cbn [flat_map].
    pose proof (PreviewMore.utf8Encode_not_nil cp).
    destruct (Utf.utf8Encode cp); [congruence|discriminate].
  - left. split; reflexivity.
Qed.

Lemma svgPreviewUrl_shape_witness :
  App.svgPreviewUrl (lit "<svg>" ++ [55357])
  = ([ConsoleError (lit "Error creating SVG data URL") (Some URIError)], Return [])
  \/ exists payload,
      App.svgPreviewUrl (lit "<svg>" ++ [55357]) = ([], Return (dataUrlPrefix ++ payload)).
Proof.
  destruct (svgPreviewUrl_shape (lit "<svg>" ++ [55357])) as [[E _]|[[_ U]|[_ [_ [p [U _]]]]]].
  - apply wf_string_check. reflexivity.
  - discriminate E.
  - left. exact U.
  - right. exists p. exact U.
Defined.

(** ** The render of the component *)

Section RenderFacts.
Context {host : Host}.
Import Monad.

Lemma svgPreviewUrl_truthy text :
  wf_string text ->
  exists tr url,
    App.svgPreviewUrl text = (tr, Return url)
    /\ (Str.truthy url = false <-> text = [] \/ Utf.isWellFormed text = false).
Proof.
  intros W. rewrite svgPreviewUrl_eq. destruct text as [|c r].
  - exists [], []. split; [reflexivity|]. split; [now left|reflexivity].
  - rewrite EncodingFacts.base64OfText_codePoints by assumption. unfold Utf.isWellFormed.
    destruct (Utf.codePoints (c :: r)) as [cps|].
    + eexists _, _. split; [reflexivity|]. split; [discriminate|].
      intros [E|E]; discriminate E.
    + eexists _, _. split; [reflexivity|]. split; [now right|reflexivity].
Qed.

Lemma previewPane_invalid url sizes single :
  previewPane url sizes single = InvalidMessage <-> Str.truthy url = false.
Proof.
  unfold previewPane. destruct (Str.truthy url); [|split; reflexivity].
  destruct (1 <? List.length sizes)%nat; [split; discriminate|].
  destruct (List.length sizes =? 1)%nat; split; discriminate.
Qed.

(** X11: for an input of white space alone, the empty input included, a
    render asks nothing of the host and writes no diagnostic; the output
    panel is empty and the preview panel shows the message for invalid or
    empty input, whatever the options, the sizes and the colour. *)
Theorem render_blank_input :
  forall st : AppState,
    blank (inputSvg st) ->
    render st = ([], Return {| outputText := []; pane := InvalidMessage |}).
Proof.
  intros st B. unfold render.
  rewrite optimizeSvgBase_blank by now apply TrimFacts.trim_nil.
  unfold bind. cbn [App.previewRenderSvg Str.truthy negb].
  destruct (applyPreviewColor (options st)); reflexivity.
Qed.

(** X12: a render returns a view and does not throw. Its output text is
    the colorized text when the colour is to be applied and the base text
    otherwise; and its preview panel shows the message for invalid or
    empty input exactly when the base text is empty or the colorized text
    holds an unpaired surrogate. A non-empty base text that is no SVG, as
    the transformer returns it for invalid input, is given to the previews
    as an image. *)
Theorem render_invalid_message :
  forall (st : AppState) (base : jsstring),
    completion (optimizeSvgBase (inputSvg st) (options st)) = Return base ->
    wf_string (App.previewRenderSvg base (previewColor (options st))) ->
    exists v,
      completion (render st) = Return v
      /\ outputText v
         = (if applyPreviewColor (options st)
            then App.previewRenderSvg base (previewColor (options st)) else base)
      /\ (pane v = InvalidMessage
          <-> base = []
              \/ Utf.isWellFormed (App.previewRenderSvg base (previewColor (options st)))
                 = false).
Proof.
  intros st base O W. unfold render.
  destruct (optimizeSvgBase (inputSvg st) (options st)) as [tr c]. cbn in O. subst c.
  destruct (svgPreviewUrl_truthy _ W) as [tr' [url [U T]]].
  unfold bind. rewrite U. eexists. split; [reflexivity|]. split; [reflexivity|].
  cbn [pane]. rewrite previewPane_invalid, T. split.
  - intros [E|E]; [left|now right].
    destruct base as [|x r]; [reflexivity|].
    exfalso. revert E. apply PreviewMore.previewRenderSvg_not_nil. discriminate.
  - intros [->|E]; [now left|now right].
Qed.

(** X13: what one run of the transformer does. For a blank input it
    does nothing and returns the empty text. Otherwise it calls the parser
    once; it calls the serializer once, after the parser and only for a
    valid document; and it writes to the diagnostic channel exactly when
    it returns the input as it was given: one line, after a parser that
    threw, an invalid document or a serializer that threw. A run that
    returns the serializer's text writes none. *)
Theorem optimizeSvgBase_runs :
  forall (svgString : jsstring) (options : SvgOptions),
    (blank svgString /\ optimizeSvgBase svgString options = ([], Return []))
    \/ (~ blank svgString
        /\ ((exists e,
                parseFromString svgString svgMime = Throw e
                /\ optimizeSvgBase svgString options
                   = ([Parsed svgString svgMime;
                       ConsoleError (lit "Error optimizing SVG:") (Some e)],
                      Return svgString))
            \/ (exists doc,
                   parseFromString svgString svgMime = Return doc /\ invalid doc = true
                   /\ optimizeSvgBase svgString options
                      = ([Parsed svgString svgMime;
                          ConsoleError (lit "Invalid SVG input") None],
                         Return svgString))
            \/ (exists doc e,
                   parseFromString svgString svgMime = Return doc /\ invalid doc = false
                   /\ serializeToString (mutated options (documentElement doc)) = Throw e
                   /\ optimizeSvgBase svgString options
                      = ([Parsed svgString svgMime;
                          Serialized (mutated options (documentElement doc));
                          ConsoleError (lit "Error optimizing SVG:") (Some e)],
                         Return svgString))
            \/ (exists doc text,
                   parseFromString svgString svgMime = Return doc /\ invalid doc = false
                   /\ serializeToString (mutated options (documentElement doc)) = Return text
                   /\ optimizeSvgBase svgString options
                      = ([Parsed svgString svgMime;
                          Serialized (mutated options (documentElement doc))],
                         Return text)))).
Proof.
  intros svgString options. destruct (Str.trim svgString) as [|c r] eqn:T.
  - left. split; [now apply TrimFacts.trim_nil|now apply optimizeSvgBase_blank].
  - right. assert (NE : Str.trim svgString <> []) by congruence.
    split; [intros B; apply TrimFacts.trim_nil in B; congruence|].
    destruct (parseFromString svgString svgMime) as [doc|e] eqn:P.
    + destruct (invalid doc) eqn:I.
      * right. left. exists doc. repeat split; try assumption.
        now apply (optimizeSvgBase_invalid _ _ doc).
      * pose proof (optimizeSvgBase_valid svgString options doc NE P I) as V.
        destruct (serializeToString (mutated options (documentElement doc)))
          as [text|e] eqn:S.
        -- right. right. right. exists doc, text. repeat split; assumption.
        -- right. right. left. exists doc, e. repeat split; assumption.
    + left. exists e. split; [reflexivity|]. now apply optimizeSvgBase_parse_throws.
Qed.
End RenderFacts.

Lemma render_blank_input_witness :
  render (host := RefHost.host) (handle initialState (ChangeInput [32; 10]))
  = ([], Return {| outputText := []; pane := InvalidMessage |}).
Proof.
  apply (render_blank_input (host := RefHost.host)). repeat constructor.
Defined.

Lemma render_invalid_message_witness :
  exists v,
    Monad.completion
      (render (host := RefHost.host) (handle initialState (ChangeInput (lit "hello"))))
    = Return v
    /\ outputText v = lit "hello"
    /\ (pane v = InvalidMessage
        <-> lit "hello" = [] \/ Utf.isWellFormed (lit "hello") = false).
Proof.
  refine (render_invalid_message (host := RefHost.host)
            (handle initialState (ChangeInput (lit "hello"))) (lit "hello") _ _).
  - vm_compute. reflexivity.
  - apply wf_string_check. vm_compute. reflexivity.
Defined.

(** ** The effects of the component *)

Module EffectFacts.

(** A Number strictly equal to a positive one is that Number (only the
    two zeros are equal and different). *)
Lemma strictEq_eq a b : Num.gt0 b = true -> NumOps.strictEq a b = true -> a = b.
Proof.
  destruct a as [|x| | |], b as [|y| | |]; try discriminate; try reflexivity; cbn.
  - intros _ H. f_equal. lia.
  - intros P H. lia.
Qed.

Lemma sameValue_eq a b : NumOps.sameValue a b = true -> a = b.
Proof.
  destruct a as [|x| | |], b as [|y| | |]; try discriminate; try reflexivity.
  cbn. intros H. f_equal. lia.
Qed.

Lemma parsedSizes_gt0 text n : In n (App.parsedSizes text) -> Num.gt0 n = true.
Proof.
  unfold App.parsedSizes. intros H. apply filter_In in H. destruct H as [_ H].
  now apply andb_true_iff in H.
Qed.

Lemma sizeEffect_options st : options (sizeEffect st) = options st.
Proof.
  unfold sizeEffect. destruct (App.parsedSizes (outputSizes (options st))) as [|n [|m l]];
    try reflexivity.
  destruct (negb (NumOps.strictEq (singlePreviewSize st) n)); reflexivity.
Qed.

(** After the effect ran, a size list of one size is the size shown. *)
Lemma sizeEffect_establishes st n :
  App.parsedSizes (outputSizes (options st)) = [n] ->
  singlePreviewSize (sizeEffect st) = n.
Proof.
  intros P. unfold sizeEffect. rewrite P.
  destruct (NumOps.strictEq (singlePreviewSize st) n) eqn:E; cbn [negb].
  - apply strictEq_eq; [|exact E].
    apply (parsedSizes_gt0 (outputSizes (options st))). rewrite P. now left.
  - reflexivity.
Qed.

Lemma settle_sizes before after n :
  (App.parsedSizes (outputSizes (options before)) = [n] -> singlePreviewSize before = n) ->
  App.parsedSizes (outputSizes (options (settle before after))) = [n] ->
  singlePreviewSize (settle before after) = n.
Proof.
  intros IH. unfold settle. destruct (sizeDepsChanged before after) eqn:D.
  - destruct (sizeDepsChanged after (sizeEffect after)).
    + rewrite !sizeEffect_options. intros P. apply sizeEffect_establishes.
      now rewrite sizeEffect_options.
    + rewrite sizeEffect_options. apply sizeEffect_establishes.
  - unfold sizeDepsChanged in D. apply orb_false_iff in D. destruct D as [D1 D2].
    apply negb_false_iff in D1, D2. apply jseqb_eq in D1. apply sameValue_eq in D2.
    rewrite <- D1, <- D2. exact IH.
Qed.

Lemma settle_options before after : options (settle before after) = options after.
Proof.
  unfold settle. destruct (sizeDepsChanged before after); [|reflexivity].
  destruct (sizeDepsChanged after (sizeEffect after)); now rewrite !sizeEffect_options.
Qed.

Lemma themeEq_eq a b : themeEq a b = true <-> a = b.
Proof. destruct a, b; split; (reflexivity || discriminate). Qed.

Lemma toggle_has token force l : existsb (jseqb token) (toggle token force l) = force.
Proof.
  unfold toggle. destruct force.
  - destruct (existsb (jseqb token) l) eqn:E; [exact E|].
    rewrite existsb_app. cbn. now rewrite jseqb_refl, orb_true_r.
  - induction l as [|t l IH]; [reflexivity|]. cbn [filter].
    destruct (jseqb t token) eqn:E; cbn [negb]; [exact IH|].
    cbn [existsb]. rewrite IH, orb_false_r.
    apply jseqb_neq. apply jseqb_neq in E. congruence.
Qed.

Lemma toggle_others token force l :
  filter (fun t => negb (jseqb t token)) (toggle token force l)
  = filter (fun t => negb (jseqb t token)) l.
Proof.
  unfold toggle. destruct force.
  - destruct (existsb (jseqb token) l); [reflexivity|].
    rewrite filter_app. cbn. rewrite jseqb_refl. cbn. apply app_nil_r.
  - induction l as [|t l IH]; [reflexivity|]. cbn [filter].
    destruct (negb (jseqb t token)) eqn:E; cbn [filter]; [rewrite E; now f_equal|exact IH].
Qed.

Lemma removeListener_only t : removeListener t [t] = [].
Proof. cbn. now rewrite (proj2 (themeEq_eq t t) eq_refl). Qed.

Lemma isDark_fixed t b1 b2 : themeEq t system = false -> isDark t b1 = isDark t b2.
Proof. intros H. unfold isDark. now rewrite H. Qed.
End EffectFacts.

(** X14: in every state the component reaches, a size list that parses to
    exactly one size makes that size the size of the single preview. So a
    move of the slider does not last while the size list holds one size:
    after the change and the effect that follows it, the preview has the
    size of the list again. *)
Theorem single_preview_follows_sizes :
  forall st : AppState,
    reachable st ->
    forall n,
      App.parsedSizes (outputSizes (options st)) = [n] ->
      singlePreviewSize st = n
      /\ forall value, singlePreviewSize (step st (ChangeSlider value)) = n.
Proof.
  assert (Inv : forall st, reachable st ->
                  forall n, App.parsedSizes (outputSizes (options st)) = [n] ->
                            singlePreviewSize st = n).
  { induction 1 as [|st a R IH]; intros n P.
    - vm_compute in P. discriminate P.
    - unfold step in *. apply EffectFacts.settle_sizes; [exact (IH n)|exact P]. }
  intros st R n P. split; [now apply Inv|].
  intros value. apply (Inv _ (reachable_step st (ChangeSlider value) R)).
  unfold step. rewrite EffectFacts.settle_options. exact P.
Qed.

Lemma single_preview_follows_sizes_witness :
  singlePreviewSize (step mounted (ChangeSizes (lit "64"))) = Num 64
  /\ singlePreviewSize
       (step (step mounted (ChangeSizes (lit "64"))) (ChangeSlider (lit "100")))
     = Num 64.
Proof.
  pose proof (single_preview_follows_sizes (step mounted (ChangeSizes (lit "64")))
                (reachable_step _ _ reachable_mounted) (Num 64) eq_refl) as [H1 H2].
  split; [exact H1|exact (H2 (lit "100"))].
Defined.

(** X15: on a page where the component was mounted with no listener of
    its own yet, after any actions and any changes of the media query:
    the root of the page has the class dark exactly when the theme is dark
    or the theme is system and the media query matches; the media query
    has one listener of the component, the one of the current theme; and
    the other classes of the root are as they were. *)
Theorem dark_class_follows_theme :
  forall (p0 : Page) (w : AppState * Page),
    listeners p0 = [] ->
    pageReachable p0 w ->
    existsb (jseqb (lit "dark")) (classList (snd w))
    = isDark (theme (fst w)) (prefersDark (snd w))
    /\ listeners (snd w) = [theme (fst w)]
    /\ filter (fun t => negb (jseqb t (lit "dark"))) (classList (snd w))
       = filter (fun t => negb (jseqb t (lit "dark"))) (classList p0).
Proof.
  intros p0 w L R. induction R as [|st p e R [IH1 [IH2 IH3]]].
  - cbn [pageMounted fst snd themeEffect classList listeners prefersDark].
    rewrite EffectFacts.toggle_has, EffectFacts.toggle_others, L. repeat split.
  - cbn [fst snd] in *. destruct e as [a|matches]; cbn [pageStep].
    + destruct (themeEq (theme st) (theme (step st a))) eqn:E.
      * apply EffectFacts.themeEq_eq in E. cbn [fst snd]. rewrite <- E. repeat split; assumption.
      * cbn [fst snd themeEffect themeCleanup classList listeners prefersDark].
        rewrite EffectFacts.toggle_has, EffectFacts.toggle_others, IH2,
          EffectFacts.removeListener_only.
        repeat split. exact IH3.
    + cbn [fst snd]. unfold mediaChange. rewrite IH2. cbn [fold_left].
      unfold handleChange. destruct (themeEq (theme st) system) eqn:E.
      * cbn [classList listeners prefersDark].
        rewrite EffectFacts.toggle_has, EffectFacts.toggle_others.
        apply EffectFacts.themeEq_eq in E. rewrite E. repeat split; assumption.
      * cbn [classList listeners prefersDark]. rewrite IH1.
        repeat split; [now apply EffectFacts.isDark_fixed|assumption].
Qed.

Lemma dark_class_follows_theme_witness :
  existsb (jseqb (lit "dark"))
          (classList (snd (pageStep mounted
                             (snd (pageMounted {| prefersDark := true;
                                                  classList := [lit "app"];
                                                  listeners := [] |}))
                             (Act (ClickTheme light)))))
  = false.
Proof.
  refine (proj1 (dark_class_follows_theme
                   {| prefersDark := true; classList := [lit "app"]; listeners := [] |}
                   (pageStep mounted
                      (snd (pageMounted {| prefersDark := true;
                                           classList := [lit "app"];
                                           listeners := [] |}))
                      (Act (ClickTheme light))) eq_refl _)).
  apply (pageReachable_step _ mounted _ (Act (ClickTheme light))).
  apply pageReachable_mounted.
Defined.
